(** * Mini Seller Console: the application state engine

    A shallow embedding of [src/context/AppContext.jsx] (the reducer, the
    action creators [updateLead], [addOpportunity],
    [convertLeadToOpportunity], [setFilters], the filter storage and the
    error auto-clear effect) and of the derived view computed in
    [src/components/leads/LeadsList.jsx], with the properties the
    specification states about them. *)

From Stdlib Require Import ZArith QArith Qround.
From stdpp Require Import gmap strings list fin_maps pretty sorting.

Local Open Scope string_scope.
Local Open Scope list_scope.
Local Open Scope Z_scope.

(** ** Data model *)

(** A lead, with the fields of [leads.json]: every field is a string but
    the score, which is a number (a whole number from 0 to 100 in the
    data). *)
Module Lead.
Record t := mk {
  id : string;
  name : string;
  company : string;
  email : string;
  source : string;
  score : Z;
  status : string
}.

(** The object an update carries: any subset of the fields. *)
Record updates := mkUpdates {
  u_id : option string;
  u_name : option string;
  u_company : option string;
  u_email : option string;
  u_source : option string;
  u_score : option Z;
  u_status : option string
}.

Definition noUpdates : updates := mkUpdates None None None None None None None.

(** [{ ...lead, ...updates }] *)
Definition spread (lead : t) (u : updates) : t :=
  mk (default (id lead) (u_id u))
     (default (name lead) (u_name u))
     (default (company lead) (u_company u))
     (default (email lead) (u_email u))
     (default (source lead) (u_source u))
     (default (score lead) (u_score u))
     (default (status lead) (u_status u)).

#[global] Instance eq_dec : EqDecision t.
Proof. solve_decision. Defined.
End Lead.

(** An opportunity. Those loaded from [opportunities.json] may lack the
    fields a conversion fills in, which then read [undefined] ([None]). *)
Module Opportunity.
Record t := mk {
  id : string;
  name : string;
  stage : string;
  amount : option Z;
  accountName : string;
  leadId : option string;
  probability : option Z;
  expectedCloseDate : option string
}.

(** [{ ...opportunity, id: newId }] *)
Definition withId (o : t) (newId : string) : t :=
  mk newId (name o) (stage o) (amount o) (accountName o) (leadId o)
     (probability o) (expectedCloseDate o).

#[global] Instance eq_dec : EqDecision t.
Proof. solve_decision. Defined.
End Opportunity.

(** JSON values, as [JSON.parse] yields them and as the [filters] field
    of the state holds them. An object is a finite map from keys to
    values. *)
#[warnings="-register-all"]
Inductive json :=
  | JNull
  | JBool (b : bool)
  | JNum (q : Q)
  | JStr (s : string)
  | JArr (items : list json)
  | JObj (props : gmap string json).

(** The own enumerable properties an object spread copies: the entries of
    an object, the index-keyed items of an array, the index-keyed
    characters of a string, nothing for the other values. *)
Definition indexed (items : list json) : gmap string json :=
  list_to_map (imap (fun i x => (pretty i, x)) items).

Fixpoint chars (s : string) : list json :=
  match s with
  | EmptyString => []
  | String c s' => JStr (String c EmptyString) :: chars s'
  end.

Definition ownProps (j : json) : gmap string json :=
  match j with
  | JObj props => props
  | JArr items => indexed items
  | JStr s => indexed (chars s)
  | JNull | JBool _ | JNum _ => ∅
  end.

(** [{ ...a, ...b }]: the properties of [b] win. *)
Definition spread (a b : json) : json := JObj (ownProps b ∪ ownProps a).

(** ** The state and its reducer *)

Record State := mkState {
  leads : list Lead.t;
  opportunities : list Opportunity.t;
  selectedLead : option Lead.t;
  isLoading : bool;
  error : option string;
  filters : json;
  liveMessage : option string
}.

Inductive Action :=
  | SET_LEADS (payload : list Lead.t)
  | SET_OPPORTUNITIES (payload : list Opportunity.t)
  | SET_LOADING (payload : bool)
  | SET_ERROR (payload : option string)
  | SET_SELECTED_LEAD (payload : option Lead.t)
  | UPDATE_LEAD (id : string) (updates : Lead.updates)
  | ADD_OPPORTUNITY (payload : Opportunity.t)
  | SET_FILTERS (payload : json)
  | CLEAR_ERROR
  | UPDATE_LEAD_ROLLBACK (id : string) (originalLead : Lead.t)
  | SET_LIVE_MESSAGE (payload : string)
  | OTHER (type : string).

(** [state.selectedLead?.id === id] *)
Definition selectedHasId (sel : option Lead.t) (id : string) : bool :=
  match sel with
  | Some l => bool_decide (Lead.id l = id)
  | None => false
  end.

Definition appReducer (state : State) (action : Action) : State :=
  match action with
  | SET_LEADS payload =>
      mkState payload (opportunities state) (selectedLead state) false
              (error state) (filters state) (liveMessage state)
  | SET_OPPORTUNITIES payload =>
      mkState (leads state) payload (selectedLead state) (isLoading state)
              (error state) (filters state) (liveMessage state)
  | SET_LOADING payload =>
      mkState (leads state) (opportunities state) (selectedLead state) payload
              (error state) (filters state) (liveMessage state)
  | SET_ERROR payload =>
      mkState (leads state) (opportunities state) (selectedLead state) false
              payload (filters state) (liveMessage state)
  | SET_SELECTED_LEAD payload =>
      mkState (leads state) (opportunities state) payload (isLoading state)
              (error state) (filters state) (liveMessage state)
  | CLEAR_ERROR =>
      mkState (leads state) (opportunities state) (selectedLead state)
              (isLoading state) None (filters state) (liveMessage state)
  | SET_LIVE_MESSAGE payload =>
      mkState (leads state) (opportunities state) (selectedLead state)
              (isLoading state) (error state) (filters state) (Some payload)
  | UPDATE_LEAD id updates =>
      mkState
        (map (fun lead =>
                if bool_decide (Lead.id lead = id)
                then Lead.spread lead updates else lead)
             (leads state))
        (opportunities state)
        (if selectedHasId (selectedLead state) id
         then option_map (fun sel => Lead.spread sel updates) (selectedLead state)
         else selectedLead state)
        (isLoading state) (error state) (filters state) (liveMessage state)
  | ADD_OPPORTUNITY payload =>
      mkState (leads state) (opportunities state ++ [payload])
              (selectedLead state) (isLoading state) (error state)
              (filters state) (liveMessage state)
  | SET_FILTERS payload =>
      let newFilters := spread (filters state) payload in
      mkState (leads state) (opportunities state) (selectedLead state)
              (isLoading state) (error state) newFilters (liveMessage state)
  | UPDATE_LEAD_ROLLBACK id originalLead =>
      mkState
        (map (fun lead =>
                if bool_decide (Lead.id lead = id) then originalLead else lead)
             (leads state))
        (opportunities state)
        (if selectedHasId (selectedLead state) id
         then Some originalLead else selectedLead state)
        (isLoading state) (error state) (filters state) (liveMessage state)
  | OTHER _ => state
  end.

(** ** Action creators

    An action creator reads the state of the render it was created in
    (the [state] argument below: [useCallback] captures [state.leads],
    [state.opportunities] and [state.filters]) and, as it runs, dispatches
    actions to the store and waits for simulated remote calls. Its run is
    recorded as the sequence of these events, in program order: a dispatch,
    a simulated remote call the creator awaits, or a dispatch left to a
    timer. *)

Inductive Event :=
  | Dispatch (action : Action)
  | SimulatedCall (ms : Z)
  | Later (ms : Z) (action : Action).

(** The store applies the dispatched actions in order; run to its end
    with nothing else in between, a creator leaves the store in
    [run state events]. *)
Definition step (state : State) (e : Event) : State :=
  match e with
  | Dispatch action | Later _ action => appReducer state action
  | SimulatedCall _ => state
  end.

Definition run (state : State) (events : list Event) : State :=
  fold_left step events state.

Definition isCall (e : Event) : bool :=
  match e with SimulatedCall _ => true | Dispatch _ | Later _ _ => false end.

(** The events up to the first simulated call: what has happened while
    that call is still pending. *)
Fixpoint beforeCall (events : list Event) : list Event :=
  match events with
  | [] => []
  | e :: rest => if isCall e then [] else e :: beforeCall rest
  end.

(** The events after the first simulated call: what happens once it has
    settled. *)
Fixpoint afterCall (events : list Event) : list Event :=
  match events with
  | [] => []
  | e :: rest => if isCall e then rest else afterCall rest
  end.

Definition callsMade (events : list Event) : nat :=
  length (filter (fun e => isCall e = true) events).

(** [Math.random() < rate]: the simulated call rejects. *)
Definition rejects (roll rate : Q) : bool := negb (Qle_bool rate roll).

Definition findLead (state : State) (leadId : string) : option Lead.t :=
  find (fun l => bool_decide (Lead.id l = leadId)) (leads state).

Definition findOpportunity (state : State) (leadId : string) : option Opportunity.t :=
  find (fun opp => bool_decide (Opportunity.leadId opp = Some leadId))
       (opportunities state).

(** [updateLead(leadId, updates, { optimistic })]; [roll] is the value
    [Math.random()] returns in the timer callback. *)
Definition updateLead (state : State) (leadId : string) (updates : Lead.updates)
    (optimistic : bool) (roll : Q) : list Event :=
  match findLead state leadId with
  | None => [Dispatch (SET_ERROR (Some "Lead não encontrado"))]
  | Some originalLead =>
      (if optimistic then [Dispatch (UPDATE_LEAD leadId updates)] else [])
      ++ [SimulatedCall 1000]
      ++ (if rejects roll (1 # 10)
          then (if optimistic
                then [Dispatch (UPDATE_LEAD_ROLLBACK leadId originalLead)]
                else [])
               ++ [Dispatch (SET_ERROR (Some "Lead upgrade failed"))]
          else (if optimistic then []
                else [Dispatch (UPDATE_LEAD leadId updates)]))
  end.

(** [addOpportunity(opportunity)]; [uuid] is what [uuidv4()] returns. *)
Definition addOpportunity (opportunity : Opportunity.t) (uuid : string) : list Event :=
  [Dispatch (ADD_OPPORTUNITY (Opportunity.withId opportunity uuid))].

(** What the environment answers during one conversion, in the order the
    code asks: the roll of the simulated call, the two readings of
    [Date.now()], the roll for the amount, the fresh uuid, and the roll of
    the status update. *)
Record Oracle := mkOracle {
  callRoll : Q;
  idClock : Z;
  amountRoll : Q;
  dateClock : Z;
  uuid : string;
  updateRoll : Q
}.

Section Conversion.
(** [new Date(ms).toISOString().split('T')[0]] *)
Variable isoDate : Z -> string.

Definition thirtyDays : Z := 30 * 24 * 60 * 60 * 1000.

Definition newOpportunity (lead : Lead.t) (leadId : string) (o : Oracle)
    : Opportunity.t :=
  Opportunity.mk
    ("opp-" +:+ pretty (idClock o))
    (Lead.company lead +:+ " - Sales Opportunity")
    "qualification"
    (Some (Qfloor (amountRoll o * 50000) + 20000))
    (Lead.company lead)
    (Some leadId)
    (Some (Lead.score lead))
    (Some (isoDate (dateClock o + thirtyDays))).

Definition qualified : Lead.updates :=
  Lead.mkUpdates None None None None None None (Some "qualified").

(** [convertLeadToOpportunity(leadId)]. The [updateLead] it calls is the
    one of the same render, so it reads the same [state]; it catches its
    own failure, so nothing reaches the [catch] here but the rejection of
    the first simulated call. *)
Definition convertLeadToOpportunity (state : State) (leadId : string)
    (o : Oracle) : list Event :=
  match findLead state leadId with
  | None => [Dispatch (SET_ERROR (Some "Lead not found"))]
  | Some lead =>
      match findOpportunity state leadId with
      | Some existingOpportunity =>
          [Dispatch (SET_ERROR (Some "Lead already converted into opportunity"))]
      | None =>
          [Dispatch (SET_LOADING true); SimulatedCall 1500]
          ++ (if rejects (callRoll o) (5 # 100)
              then [Dispatch (SET_ERROR (Some "Failed to convert lead"));
                    Dispatch (SET_LOADING false)]
              else addOpportunity (newOpportunity lead leadId o) (uuid o)
                   ++ updateLead state leadId qualified false (updateRoll o)
                   ++ [Dispatch (SET_LOADING false)])
      end
  end.
End Conversion.

Definition setSelectedLead (lead : option Lead.t) : list Event :=
  [Dispatch (SET_SELECTED_LEAD lead)].

Definition clearError : list Event := [Dispatch CLEAR_ERROR].

(** [announceLiveMessage(message)]: the second dispatch comes from a
    timer nobody waits for. *)
Definition announceLiveMessage (message : string) : list Event :=
  [Dispatch (SET_LIVE_MESSAGE message); Later 1000 (SET_LIVE_MESSAGE "")].

(** A string is truthy unless empty. *)
Definition truthy (s : string) : bool := negb (bool_decide (s = "")).

(** ** Filter storage *)

Module STORAGE_KEYS.
Definition FILTERS := "seller_console_filters".
Definition LEADS := "seller_console_leads".
Definition OPPORTUNITIES := "seller_console_opportunities".
End STORAGE_KEYS.

(** [localStorage]: the stored items, and whether reading and writing
    succeed or throw (storage disabled, quota exceeded). *)
Record Storage := mkStorage {
  items : gmap string string;
  readable : bool;
  writable : bool
}.

(** [None] stands for the exception. *)
Definition getItem (ls : Storage) (key : string) : option (option string) :=
  if readable ls then Some (items ls !! key) else None.

Definition setItem (ls : Storage) (key value : string) : option Storage :=
  if writable ls
  then Some (mkStorage (<[key := value]> (items ls)) (readable ls) (writable ls))
  else None.

Definition defaultFilters : json :=
  JObj (list_to_map [("search", JStr ""); ("status", JStr "all");
                     ("sortBy", JStr "score"); ("sortOrder", JStr "desc")]).

Section Json.
(** [JSON.parse] ([None] when it throws a [SyntaxError]) and
    [JSON.stringify] on JSON values. *)
Variable JSON_parse : string -> option json.
Variable JSON_stringify : json -> string.

Definition loadFiltersFromStorage (ls : Storage) : json :=
  match getItem ls STORAGE_KEYS.FILTERS with
  | Some (Some saved) =>
      if truthy saved
      then match JSON_parse saved with
           | Some value => value
           | None => defaultFilters
           end
      else defaultFilters
  | Some None | None => defaultFilters
  end.

(** The state [AppProvider] starts from. *)
Definition initialState (ls : Storage) : State :=
  mkState [] [] None false None (loadFiltersFromStorage ls) None.

(** [setFilters(filters)]: the storage afterwards, and the dispatch. *)
Definition setFilters (state : State) (ls : Storage) (partial : json)
    : Storage * list Event :=
  let newFilters := spread (filters state) partial in
  let ls' := match setItem ls STORAGE_KEYS.FILTERS (JSON_stringify newFilters) with
             | Some written => written
             | None => ls
             end in
  (ls', [Dispatch (SET_FILTERS newFilters)]).
End Json.

(** ** The store's public operations, one after the other *)

Inductive Operation :=
  | Convert (leadId : string) (o : Oracle)
  | Update (leadId : string) (updates : Lead.updates) (optimistic : bool) (roll : Q)
  | AddOpportunity (opportunity : Opportunity.t) (uuid : string)
  | Select (lead : option Lead.t)
  | SetFilters (partial : json)
  | ClearError
  | Announce (message : string)
  | Transition (action : Action).

Section Operations.
Variable isoDate : Z -> string.

(** The events of an operation invoked in a render of [state]. The
    filter storage has no part in them. *)
Definition eventsOf (state : State) (op : Operation) : list Event :=
  match op with
  | Convert leadId o => convertLeadToOpportunity isoDate state leadId o
  | Update leadId updates optimistic roll =>
      updateLead state leadId updates optimistic roll
  | AddOpportunity opportunity uuid => addOpportunity opportunity uuid
  | Select lead => setSelectedLead lead
  | SetFilters partial => [Dispatch (SET_FILTERS (spread (filters state) partial))]
  | ClearError => clearError
  | Announce message => announceLiveMessage message
  | Transition action => [Dispatch action]
  end.

(** Each operation runs to its end before the next one is invoked. *)
Definition perform (state : State) (op : Operation) : State :=
  run state (eventsOf state op).

Definition performAll (state : State) (ops : list Operation) : State :=
  fold_left perform ops state.
End Operations.

(** The opportunities created from the lead [id]. *)
Definition convertedFrom (id : string) (opps : list Opportunity.t)
    : list Opportunity.t :=
  filter (fun opp => Opportunity.leadId opp = Some id) opps.

Definition atMostOnePerLead (opps : list Opportunity.t) : Prop :=
  forall id, (length (convertedFrom id opps) <= 1)%nat.

(** The operations that create opportunities only behind the duplicate
    check of the conversion: everything but [addOpportunity] and the two
    transitions that write the collection directly, a bulk replacement
    being let through when the list it installs has no duplicate. *)
Definition guarded (op : Operation) : Prop :=
  match op with
  | AddOpportunity _ _ => False
  | Transition (ADD_OPPORTUNITY _) => False
  | Transition (SET_OPPORTUNITIES payload) => atMostOnePerLead payload
  | _ => True
  end.

(** Record ids are unique. *)
Definition uniqueIds (ls : list Lead.t) : Prop := NoDup (map Lead.id ls).

(** The selection mirrors the record of its id. *)
Definition mirrors (state : State) : Prop :=
  forall sel, selectedLead state = Some sel ->
    findLead state (Lead.id sel) = Some sel.

(** ** The error auto-clear effect *)

Module ErrorTimer.
(** The store as the provider renders it: the state, the virtual clock
    in milliseconds, and the deadline of the pending auto-clear timer,
    if any. *)
Record World := mkWorld {
  store : State;
  clock : Z;
  timer : option Z
}.

(** [if (state.error)] *)
Definition errorSet (state : State) : bool :=
  match error state with
  | Some message => truthy message
  | None => false
  end.

(** One run of the effect: [setTimeout(() => clearError(), 5000)] when
    an error is set. *)
Definition effect (state : State) (now : Z) : option Z :=
  if errorSet state then Some (now + 5000) else None.

(** The actions dispatched in one turn of the event loop, followed by
    the one render they cause. The effect lists [state.error] as its
    only dependency: when the error of the new state is the error of
    the previous render, nothing happens to the timer; otherwise the
    cleanup of the previous run cancels the timer it had set
    ([clearTimeout]) and the effect runs again. *)
Definition render (w : World) (actions : list Action) : World :=
  let state' := fold_left appReducer actions (store w) in
  if decide (error state' = error (store w))
  then mkWorld state' (clock w) (timer w)
  else mkWorld state' (clock w) (effect state' (clock w)).

Definition dispatch (w : World) (action : Action) : World :=
  render w [action].

(** Virtual time advances by [ms]: a timer due by then fires at its
    deadline and calls [clearError()]. *)
Definition advance (ms : Z) (w : World) : World :=
  match timer w with
  | Some deadline =>
      if (deadline <=? clock w + ms)%Z
      then let fired := dispatch (mkWorld (store w) deadline None) CLEAR_ERROR in
           mkWorld (store fired) (clock w + ms) (timer fired)
      else mkWorld (store w) (clock w + ms) (timer w)
  | None => mkWorld (store w) (clock w + ms) None
  end.

(** The world right after mounting on [state]: the effect has run
    once. *)
Definition mount (state : State) (now : Z) : World :=
  mkWorld state now (effect state now).
End ErrorTimer.

(** ** The derived view of [LeadsList] *)

Module LeadsList.
(** The criteria object, at the four properties the component reads. *)
Record Filters := mkFilters {
  search : string;
  status : string;
  sortBy : string;
  sortOrder : string
}.

(** The [filters] of the context when they have that shape. *)
Definition criteria (j : json) : option Filters :=
  match j with
  | JObj props =>
      match props !! "search", props !! "status",
            props !! "sortBy", props !! "sortOrder" with
      | Some (JStr a), Some (JStr b), Some (JStr c), Some (JStr d) =>
          Some (mkFilters a b c d)
      | _, _, _, _ => None
      end
  | _ => None
  end.

(** Records are objects and collections are arrays of references to
    them; both live in a heap. The view never writes a record, and
    writes arrays. *)
Definition ref := positive.

Record Heap := mkHeap {
  objects : ref -> Lead.t;
  arrays : gmap ref (list ref)
}.

Definition M (A : Type) : Type := Heap -> A * Heap.

#[global] Instance M_ret : MRet M := fun A x h => (x, h).
#[global] Instance M_bind : MBind M :=
  fun A B f m h => let '(x, h') := m h in f x h'.

Definition elementsOf (h : Heap) (a : ref) : list ref :=
  default [] (arrays h !! a).

(** A new array holding [l]. *)
Definition alloc (l : list ref) : M ref :=
  fun h => let a := fresh (dom (arrays h)) in
           (a, mkHeap (objects h) (<[a := l]> (arrays h))).

(** [[...a]] *)
Definition copyArray (a : ref) : M ref :=
  fun h => alloc (elementsOf h a) h.

(** [a.filter(callback)]: a new array. *)
Definition filterArray (callback : Lead.t -> bool) (a : ref) : M ref :=
  fun h => alloc (List.filter (fun r => callback (objects h r)) (elementsOf h a)) h.

(** [Array.prototype.sort] is stable, and with a consistent comparator
    it yields the one stable sorted arrangement of the elements;
    inserting from the right, each element before the first one it does
    not compare greater than, computes that arrangement. *)
Fixpoint insert {A} (compareFn : A -> A -> Z) (x : A) (l : list A) : list A :=
  match l with
  | [] => [x]
  | y :: rest =>
      if (compareFn x y <=? 0)%Z then x :: y :: rest
      else y :: insert compareFn x rest
  end.

Definition sorted {A} (compareFn : A -> A -> Z) (l : list A) : list A :=
  foldr (insert compareFn) [] l.

(** [a.sort(compareFn)]: in place. *)
Definition sortArray (compareFn : Lead.t -> Lead.t -> Z) (a : ref) : M unit :=
  fun h =>
    let byRecord := fun x y => compareFn (objects h x) (objects h y) in
    (tt, mkHeap (objects h) (<[a := sorted byRecord (elementsOf h a)]> (arrays h))).

(** [s.includes(sub)] *)
Fixpoint includes (s sub : string) : bool :=
  String.prefix sub s
  || match s with
     | EmptyString => false
     | String _ rest => includes rest sub
     end.

(** What a property of a lead reads as. *)
Inductive value :=
  | VString (s : string)
  | VNumber (z : Z)
  | VUndefined.

(** [lead[key]] *)
Definition field (lead : Lead.t) (key : string) : value :=
  if bool_decide (key = "id") then VString (Lead.id lead)
  else if bool_decide (key = "name") then VString (Lead.name lead)
  else if bool_decide (key = "company") then VString (Lead.company lead)
  else if bool_decide (key = "email") then VString (Lead.email lead)
  else if bool_decide (key = "source") then VString (Lead.source lead)
  else if bool_decide (key = "score") then VNumber (Lead.score lead)
  else if bool_decide (key = "status") then VString (Lead.status lead)
  else VUndefined.

Section Platform.
(** [String.prototype.toLowerCase], [String.prototype.localeCompare]
    and the number a string converts to ([None] for [NaN]). *)
Variable toLowerCase : string -> string.
Variable localeCompare : string -> string -> Z.
Variable stringToNumber : string -> option Z.

Definition toNumber (v : value) : option Z :=
  match v with
  | VNumber z => Some z
  | VString s => stringToNumber s
  | VUndefined => None
  end.

(** [a - b], [None] for [NaN]. *)
Definition minus (a b : value) : option Z :=
  match toNumber a, toNumber b with
  | Some x, Some y => Some (x - y)
  | _, _ => None
  end.

(** The sort reads a [NaN] from its comparator as [+0]. *)
Definition orZero (v : option Z) : Z := default 0 v.

Definition compareFn (filters : Filters) (a b : Lead.t) : Z :=
  let aValue := field a (sortBy filters) in
  let bValue := field b (sortBy filters) in
  match aValue, bValue with
  | VString x, VString y =>
      if bool_decide (sortOrder filters = "desc")
      then localeCompare y x
      else localeCompare x y
  | _, _ =>
      if bool_decide (sortOrder filters = "desc")
      then orZero (minus bValue aValue)
      else orZero (minus aValue bValue)
  end.

Definition filteredLeads (leads : ref) (filters : Filters) : M ref :=
  filtered ← copyArray leads;
  filtered ← (if truthy (search filters)
              then let searchLower := toLowerCase (search filters) in
                   filterArray
                     (fun lead =>
                        includes (toLowerCase (Lead.name lead)) searchLower
                        || includes (toLowerCase (Lead.company lead)) searchLower)
                     filtered
              else mret filtered);
  filtered ← (if negb (bool_decide (status filters = "all"))
              then filterArray
                     (fun lead => bool_decide (Lead.status lead = status filters))
                     filtered
              else mret filtered);
  sortArray (compareFn filters) filtered;;
  mret filtered.

(** The specification's reading of the criteria: a record is kept
    when its name or its company contains the search string, case
    folded (any record when the string is empty), and its status is
    the one asked for (any record for ["all"]). *)
Definition selects (filters : Filters) (lead : Lead.t) : bool :=
  (bool_decide (search filters = "")
   || includes (toLowerCase (Lead.name lead)) (toLowerCase (search filters))
   || includes (toLowerCase (Lead.company lead)) (toLowerCase (search filters)))
  && (bool_decide (status filters = "all")
      || bool_decide (Lead.status lead = status filters)).

(** Not after, for the comparator. *)
Definition inOrder (filters : Filters) (a b : Lead.t) : Prop :=
  (compareFn filters a b <= 0)%Z.

Definition sameKey (filters : Filters) (a b : Lead.t) : bool :=
  (compareFn filters a b =? 0)%Z.
End Platform.

(** A consistent [localeCompare]: swapping the arguments flips the
    sign, and "not after" is transitive. *)
Definition consistent (localeCompare : string -> string -> Z) : Prop :=
  (forall a b, Z.sgn (localeCompare b a) = - Z.sgn (localeCompare a b))%Z
  /\ (forall a b c, localeCompare a b <= 0 -> localeCompare b c <= 0 ->
                    localeCompare a c <= 0)%Z.
End LeadsList.


(** The actions that write the opportunity collection. *)
Definition writesOpportunities (e : Event) : bool :=
  match e with
  | Dispatch (ADD_OPPORTUNITY _) | Dispatch (SET_OPPORTUNITIES _)
  | Later _ (ADD_OPPORTUNITY _) | Later _ (SET_OPPORTUNITIES _) => true
  | _ => false
  end.


(** ** Sample data *)

Definition elizabeth : Lead.t :=
  Lead.mk "1" "Elizabeth Bennet" "Pride and Prejudice Ltd"
          "elizabeth@prideandprejudice.com" "Website" 95 "new".

Definition oneLead : State := mkState [elizabeth] [] None false None defaultFilters None.


Definition darcy : Lead.t :=
  Lead.mk "2" "Fitzwilliam Darcy" "Pride and Prejudice Ltd"
          "darcy@prideandprejudice.com" "Referral" 92 "contacted".

Definition sampleDate : Z -> string := fun _ => "2026-01-31".

(** [Math.random()] mocked to [0.9], as the tests do: no call fails. *)
Definition calmOracle : Oracle :=
  mkOracle (9 # 10) 1767225600000 (9 # 10) 1767225600000
           "3b241101-e2bb-4255-8caf-4136c566a962" (9 # 10).

(** The first call succeeds and the status update fails. *)
Definition lateFailure : Oracle :=
  mkOracle (9 # 10) 1767225600000 (9 # 10) 1767225600000
           "3b241101-e2bb-4255-8caf-4136c566a962" (5 # 100).

Definition bennetDeal : Opportunity.t :=
  Opportunity.mk "opp-1" "Pride and Prejudice Ltd - Sales Opportunity"
                 "qualification" (Some 65000) "Pride and Prejudice Ltd"
                 (Some "1") (Some 95) (Some "2026-01-31").

(** Elizabeth is converted already, and another conversion is under
    way. *)
Definition busy : State :=
  mkState [elizabeth; darcy] [bennetDeal] None true None defaultFilters None.

(** ** Claims that fail, as they are stated *)

(** C4 as stated: a conversion stopped by the duplicate check changes
    neither collection nor the loading flag, makes no simulated call and
    reports the duplicate. *)
Definition duplicateIsInert (isoDate : Z -> string) (state : State)
    (leadId : string) (o : Oracle) : Prop :=
  let events := convertLeadToOpportunity isoDate state leadId o in
  let state' := run state events in
  opportunities state' = opportunities state
  /\ leads state' = leads state
  /\ isLoading state' = isLoading state
  /\ callsMade events = 0%nat
  /\ error state' = Some "Lead already converted into opportunity".

(** The update leaves the id alone. *)
Definition keepsId (leadId : string) (updates : Lead.updates) : Prop :=
  default leadId (Lead.u_id updates) = leadId.

(** C3 as stated: after the rejected optimistic update the record and the
    selection are what they were before it, and the error is the
    failure's message. *)
Definition rollbackRestores (state : State) (leadId : string)
    (updates : Lead.updates) (roll : Q) : Prop :=
  let final := run state (updateLead state leadId updates true roll) in
  findLead final leadId = findLead state leadId
  /\ selectedLead final = selectedLead state
  /\ error final = Some "Lead upgrade failed".

Definition contacted : Lead.updates :=
  Lead.mkUpdates None None None None None None (Some "contacted").

Definition renumbered : Lead.updates :=
  Lead.mkUpdates (Some "7") None None None None None None.

(** A selection that carries Elizabeth's id and another e-mail address
    than her record. *)
Definition elizabethDraft : Lead.t :=
  Lead.mk "1" "Elizabeth Bennet" "Pride and Prejudice Ltd"
          "e.bennet@longbourn.example" "Website" 95 "new".

Definition draftSelected : State :=
  mkState [elizabeth; darcy] [] (Some elizabethDraft) false None defaultFilters None.

Definition elizabethSelected : State :=
  mkState [elizabeth; darcy] [] (Some elizabeth) false None defaultFilters None.

(** Two records under one id. *)
Definition elizabethTwin : Lead.t :=
  Lead.mk "1" "Jane Bennet" "Longbourn Estates"
          "jane@longbourn.example" "Referral" 80 "new".

Definition twins : State :=
  mkState [elizabeth; elizabethTwin] [] None false None defaultFilters None.

Definition emptyStorage : Storage := mkStorage ∅ true true.

(** The state a session starts from when nothing is stored. *)
Definition freshState : State :=
  initialState (fun _ => None) emptyStorage.

(** C1 as stated: whatever public operations are performed from
    [start], no two opportunities refer to one lead. *)
Definition onePerLeadAlways (isoDate : Z -> string) (start : State) : Prop :=
  forall ops, atMostOnePerLead (opportunities (performAll isoDate start ops)).

(** C6 as stated, second half: an error set while the timer of an
    earlier one is pending is not cleared by that timer; it lasts its own
    five seconds. *)
Definition newerErrorOutlivesOldTimer (state : State) (first second : string)
    (d1 d2 : Z) : Prop :=
  let w1 := ErrorTimer.dispatch (ErrorTimer.mount state 0) (SET_ERROR (Some first)) in
  let w2 := ErrorTimer.dispatch (ErrorTimer.advance d1 w1) (SET_ERROR (Some second)) in
  error (ErrorTimer.store (ErrorTimer.advance d2 w2)) = Some second.

(** What the storage holds under the filters key is missing or is not
    JSON. *)
Definition absentOrMalformed (JSON_parse : string -> option json) (ls : Storage) : Prop :=
  match items ls !! STORAGE_KEYS.FILTERS with
  | None => True
  | Some saved => JSON_parse saved = None
  end.

Definition sampleCriteria : json :=
  JObj (list_to_map [("search", JStr "Bennet"); ("status", JStr "new");
                     ("sortBy", JStr "name"); ("sortOrder", JStr "asc")]).

Definition quoted (s : string) : string :=
  String (Ascii.ascii_of_nat 34) s +:+ String (Ascii.ascii_of_nat 34) EmptyString.

(** The JSON text of a criteria object whose strings need no escape. *)
Definition criteriaText (f : LeadsList.Filters) : string :=
  "{" +:+ quoted "search" +:+ ":" +:+ quoted (LeadsList.search f) +:+ ","
      +:+ quoted "status" +:+ ":" +:+ quoted (LeadsList.status f) +:+ ","
      +:+ quoted "sortBy" +:+ ":" +:+ quoted (LeadsList.sortBy f) +:+ ","
      +:+ quoted "sortOrder" +:+ ":" +:+ quoted (LeadsList.sortOrder f) +:+ "}".

(** [JSON.stringify] and [JSON.parse] at the sample criteria. *)
Definition sampleStringify (j : json) : string :=
  match LeadsList.criteria j with
  | Some f => criteriaText f
  | None => "null"
  end.

Definition sampleParse (s : string) : option json :=
  if bool_decide (s = sampleStringify sampleCriteria) then Some sampleCriteria
  else if bool_decide (s = "null") then Some JNull
  else None.

(** A comparator the sort can rely on: of two elements one is not after
    the other, "not after" is transitive, and two elements that compare
    equal to a third are not strictly ordered. *)
Record Consistent {A} (compareFn : A -> A -> Z) : Prop := mkConsistent {
  cmp_total : forall a b, compareFn a b > 0 -> compareFn b a <= 0;
  cmp_trans : forall a b c, compareFn a b <= 0 -> compareFn b c <= 0 ->
                            compareFn a c <= 0;
  cmp_equal : forall a x y, compareFn a x = 0 -> compareFn a y = 0 ->
                            compareFn x y <= 0
}.

(** The heap [h'] has every record and every array of [h] as [h] has
    them. *)
Definition preserves (h h' : LeadsList.Heap) : Prop :=
  LeadsList.objects h' = LeadsList.objects h
  /\ forall a, a ∈ dom (LeadsList.arrays h) ->
               LeadsList.arrays h' !! a = LeadsList.arrays h !! a.

(** The order the specification asks for: text keys by locale, numbers
    by value, either way round when descending; keys of no such kind
    are left as they come. *)
Definition orderAsked (localeCompare : string -> string -> Z)
    (filters : LeadsList.Filters) (a b : Lead.t) : Prop :=
  let descending := bool_decide (LeadsList.sortOrder filters = "desc") in
  match LeadsList.field a (LeadsList.sortBy filters),
        LeadsList.field b (LeadsList.sortBy filters) with
  | LeadsList.VString x, LeadsList.VString y =>
      if descending then localeCompare y x <= 0 else localeCompare x y <= 0
  | LeadsList.VNumber x, LeadsList.VNumber y =>
      if descending then y <= x else x <= y
  | _, _ => True
  end.

(** Platform functions for plain ASCII text: lower-casing letter by
    letter, and comparison by character codes. *)
Definition lowerAscii (c : Ascii.ascii) : Ascii.ascii :=
  let n := Ascii.nat_of_ascii c in
  if ((65 <=? n) && (n <=? 90))%nat then Ascii.ascii_of_nat (n + 32) else c.

Fixpoint asciiLowerCase (s : string) : string :=
  match s with
  | EmptyString => EmptyString
  | String c rest => String (lowerAscii c) (asciiLowerCase rest)
  end.

Definition codeUnitCompare (a b : string) : Z :=
  match String.compare a b with
  | Lt => -1
  | Eq => 0
  | Gt => 1
  end.

Definition noNumber : string -> option Z := fun _ => None.

(** Elizabeth and Darcy in a heap, and the array [leads] at address 10. *)
Definition sampleHeap : LeadsList.Heap :=
  LeadsList.mkHeap
    (fun r => if decide (r = 1%positive) then elizabeth else darcy)
    {[ 10%positive := [1%positive; 2%positive] ]}.

Definition prideByScore : LeadsList.Filters :=
  LeadsList.mkFilters "PRIDE" "all" "score" "asc".

Definition byNameDescending : LeadsList.Filters :=
  LeadsList.mkFilters "" "all" "name" "desc".

(** ** Further parts of the provider and of the components *)

(** The two effects that run when the provider mounts. [response] is
    what [fetch] and [response.json()] yield, [None] when either throws.
    [loadLeads] raises the loading flag before it waits; a failed load of
    the opportunities is logged and dispatches nothing. *)
Definition loadLeads (response : option (list Lead.t)) : list Event :=
  Dispatch (SET_LOADING true)
  :: match response with
     | Some loaded => [Dispatch (SET_LEADS loaded)]
     | None => [Dispatch (SET_ERROR (Some "Failed to load leads"))]
     end.

Definition loadOpportunities (response : option (list Opportunity.t)) : list Event :=
  match response with
  | Some loaded => [Dispatch (SET_OPPORTUNITIES loaded)]
  | None => []
  end.




(** [{ ...filters, [key]: value }], the object a control of
    [LeadFilters] hands to [setFilters]. *)
Definition withCriterion (filters : json) (key value : string) : json :=
  JObj (<[key := JStr value]> (ownProps filters)).

(** [{ search: '', status: 'all' }], the object of the "Clean filters"
    button. *)
Definition cleanedCriteria : json :=
  JObj (list_to_map [("search", JStr ""); ("status", JStr "all")]).

Section FilterControls.
Variable JSON_stringify : json -> string.

(** The [onChange] of the control for [key]. *)
Definition onCriterionChange (state : State) (ls : Storage) (key value : string)
    : Storage * list Event :=
  setFilters JSON_stringify state ls (withCriterion (filters state) key value).

(** The [onClick] of "Clean filters". *)
Definition onCleanFilters (state : State) (ls : Storage) : Storage * list Event :=
  setFilters JSON_stringify state ls cleanedCriteria.
End FilterControls.

(** A criteria object back as JSON. *)
Definition criteriaObject (f : LeadsList.Filters) : json :=
  JObj (list_to_map [("search", JStr (LeadsList.search f));
                     ("status", JStr (LeadsList.status f));
                     ("sortBy", JStr (LeadsList.sortBy f));
                     ("sortOrder", JStr (LeadsList.sortOrder f))]).

Definition nameAscending : json :=
  criteriaObject (LeadsList.mkFilters "darcy" "contacted" "name" "asc").

Definition searching : State :=
  mkState [elizabeth; darcy] [] None false None nameAscending None.


(** The properties a lead has. *)
Definition leadKeys : list string :=
  ["id"; "name"; "company"; "email"; "source"; "score"; "status"].

Definition byShoeSize : LeadsList.Filters :=
  LeadsList.mkFilters "" "all" "shoeSize" "desc".

Definition sideways : LeadsList.Filters :=
  LeadsList.mkFilters "" "all" "name" "sideways".

(** The worlds the provider can be in: mounted, then any renders and any
    lapses of time. *)
Inductive reachable : ErrorTimer.World -> Prop :=
  | reach_mount (state : State) (now : Z) :
      reachable (ErrorTimer.mount state now)
  | reach_render (w : ErrorTimer.World) (actions : list Action) :
      reachable w -> reachable (ErrorTimer.render w actions)
  | reach_advance (w : ErrorTimer.World) (ms : Z) :
      reachable w -> 0 <= ms -> reachable (ErrorTimer.advance ms w).

(** A timer is pending exactly while an error shows, and it is due
    within five seconds. *)
Definition timerInvariant (w : ErrorTimer.World) : Prop :=
  match ErrorTimer.timer w with
  | Some deadline =>
      ErrorTimer.errorSet (ErrorTimer.store w) = true
      /\ ErrorTimer.clock w < deadline <= ErrorTimer.clock w + 5000
  | None => ErrorTimer.errorSet (ErrorTimer.store w) = false
  end.

(** Events in the order the store sees them when a handler starts an
    asynchronous creator and goes on: what the creator dispatches before
    it first waits, then what the handler dispatches next, then the rest
    of the creator, then what the handler left to a later timer. *)
Definition startThenGoOn (creator next later : list Event) : list Event :=
  beforeCall creator ++ next
  ++ skipn (length (beforeCall creator)) creator ++ later.

(** ** [LeadCard] *)

Module LeadCard.
(** The form: the two fields the card edits. *)
Record EditData := mkEditData {
  status : string;
  email : string
}.

(** [editData], as the [updates] it is passed as. *)
Definition asUpdates (editData : EditData) : Lead.updates :=
  Lead.mkUpdates None None None (Some (email editData)) None None
                 (Some (status editData)).

Section Card.
(** [validateEmail] of [utils/helpers.js]. *)
Variable validateEmail : string -> bool.

(** [handleSave]: the message it files under [errors.email], if any, and
    the events of the store. The timer of the announcement is set after
    the one of the update and for the same delay, so it fires after the
    update has settled. *)
Definition handleSave (state : State) (lead : Lead.t) (editData : EditData)
    (roll : Q) : option string * list Event :=
  if negb (validateEmail (email editData))
  then (Some "Invalid email", [])
  else (None,
        startThenGoOn
          (updateLead state (Lead.id lead) (asUpdates editData) true roll)
          [Dispatch (SET_LIVE_MESSAGE "Lead updated successfully")]
          [Later 1000 (SET_LIVE_MESSAGE "")]).
End Card.

(** [handleCardClick] *)
Definition handleCardClick (isEditing : bool) (lead : Lead.t) : list Event :=
  if negb isEditing then setSelectedLead (Some lead) else [].
End LeadCard.

(** ** [LeadDetailPanel] *)

Module LeadDetailPanel.
(** [opportunities.some(opp => opp.leadId === lead.id)] *)
Definition isAlreadyConverted (state : State) (lead : Lead.t) : bool :=
  existsb (fun opp => bool_decide (Opportunity.leadId opp = Some (Lead.id lead)))
          (opportunities state).

(** [disabled] of the convert button. *)
Definition convertDisabled (state : State) (lead : Lead.t) : bool :=
  isAlreadyConverted state lead || isLoading state.

Section Panel.
Variable isoDate : Z -> string.

(** [handleConvert]. The timer of the announcement (1000 ms) fires while
    the first simulated call of the conversion (1500 ms) is pending. *)
Definition handleConvert (state : State) (lead : Lead.t) (o : Oracle)
    : list Event :=
  let conversion := convertLeadToOpportunity isoDate state (Lead.id lead) o in
  clearError
  ++ [Dispatch (SET_LIVE_MESSAGE "Converting lead in opportunity")]
  ++ beforeCall conversion
  ++ [Later 1000 (SET_LIVE_MESSAGE "")]
  ++ skipn (length (beforeCall conversion)) conversion.
End Panel.
End LeadDetailPanel.

(** An address is taken as valid when it has an at sign: a stand-in for
    [validateEmail] in examples. *)
Definition hasAtSign (s : string) : bool := LeadsList.includes s "@".

Definition newAddress : LeadCard.EditData :=
  LeadCard.mkEditData "contacted" "lizzy@pemberley.example".

Definition failed : State :=
  mkState [elizabeth; darcy] [] (Some elizabeth) false
          (Some "Lead upgrade failed") defaultFilters None.
(** * Properties *)

(** ** The reducer *)

(** C10. The set-error transition stores its payload in the error field
    and clears the loading flag, whatever the flag was, and changes no
    other field of the state. *)
Theorem set_error_clears_loading (state : State) (payload : option string) :
  let state' := appReducer state (SET_ERROR payload) in
  error state' = payload
  /\ isLoading state' = false
  /\ leads state' = leads state
  /\ opportunities state' = opportunities state
  /\ selectedLead state' = selectedLead state
  /\ filters state' = filters state
  /\ liveMessage state' = liveMessage state.
Proof. cbn. repeat split. Qed.

(** The flag is cleared by a transition that is not set-loading. *)
Example set_error_while_loading :
  isLoading (appReducer (mkState [] [] None true None JNull None)
                        (SET_ERROR (Some "Failed to load leads"))) = false.
Proof. reflexivity. Qed.

(** ** Running events *)

Lemma run_app (state : State) (es1 es2 : list Event) :
  run state (es1 ++ es2) = run (run state es1) es2.
Proof. apply fold_left_app. Qed.

Lemma run_cons (state : State) (e : Event) (es : list Event) :
  run state (e :: es) = run (step state e) es.
Proof. reflexivity. Qed.

Lemma step_keeps_opportunities (state : State) (e : Event) :
  writesOpportunities e = false ->
  opportunities (step state e) = opportunities state.
Proof. destruct e as [[]| |? []]; cbn; congruence. Qed.

Lemma run_keeps_opportunities (events : list Event) (state : State) :
  Forall (fun e => writesOpportunities e = false) events ->
  opportunities (run state events) = opportunities state.
Proof.
  intros H. revert state.
  induction H as [|e es He _ IH]; intros state; [done|].
  rewrite run_cons, IH. by apply step_keeps_opportunities.
Qed.

Lemma updateLead_opportunities_free (state : State) (leadId : string)
    (updates : Lead.updates) (optimistic : bool) (roll : Q) :
  Forall (fun e => writesOpportunities e = false)
         (updateLead state leadId updates optimistic roll).
Proof.
  unfold updateLead.
  destruct (findLead state leadId), optimistic, (rejects roll (1 # 10));
    cbn; repeat constructor.
Qed.

(** A simulated call whose failure rate is forced to 0 rejects for no
    roll, and one whose rate is forced to 1 rejects for every roll
    [Math.random()] can return. With the rates of the code, 0.05 and 0.1,
    the roll decides. *)
Lemma rejects_at_rate_0 (roll : Q) : (0 <= roll)%Q -> rejects roll 0 = false.
Proof.
  intros H. unfold rejects. by rewrite (proj2 (Qle_bool_iff 0 roll) H).
Qed.

Lemma rejects_at_rate_1 (roll : Q) : (roll < 1)%Q -> rejects roll 1 = true.
Proof.
  intros H. unfold rejects. destruct (Qle_bool 1 roll) eqn:E; [|done].
  apply Qle_bool_iff in E. exfalso. by apply (Qlt_not_le roll 1).
Qed.

(** The lookups, in the words of the claims. *)
Lemma findLead_None (state : State) (leadId : string) :
  Forall (fun l => Lead.id l <> leadId) (leads state) ->
  findLead state leadId = None.
Proof.
  unfold findLead. induction 1 as [|l ls Hl _ IH]; cbn; [done|].
  by rewrite bool_decide_eq_false_2.
Qed.

Lemma findLead_Some (state : State) (leadId : string) (lead : Lead.t) :
  findLead state leadId = Some lead ->
  lead ∈ leads state /\ Lead.id lead = leadId.
Proof.
  unfold findLead. intros H. apply find_some in H as [Hin Hid].
  split; [by apply list_elem_of_In|]. by apply bool_decide_eq_true in Hid.
Qed.

Lemma findLead_is_Some (state : State) (leadId : string) (lead : Lead.t) :
  lead ∈ leads state -> Lead.id lead = leadId ->
  is_Some (findLead state leadId).
Proof.
  intros Hin Hid. destruct (findLead state leadId) eqn:E; [by eexists|].
  unfold findLead in E. apply list_elem_of_In in Hin.
  eapply find_none in E; [|exact Hin]. cbn in E.
  by rewrite bool_decide_eq_true_2 in E.
Qed.

Lemma findOpportunity_None (state : State) (leadId : string) :
  Forall (fun opp => Opportunity.leadId opp <> Some leadId) (opportunities state) ->
  findOpportunity state leadId = None.
Proof.
  unfold findOpportunity. induction 1 as [|o os Ho _ IH]; cbn; [done|].
  by rewrite bool_decide_eq_false_2.
Qed.

Lemma findOpportunity_is_Some (state : State) (leadId : string) (opp : Opportunity.t) :
  opp ∈ opportunities state -> Opportunity.leadId opp = Some leadId ->
  is_Some (findOpportunity state leadId).
Proof.
  intros Hin Hid. destruct (findOpportunity state leadId) eqn:E; [by eexists|].
  unfold findOpportunity in E. apply list_elem_of_In in Hin.
  eapply find_none in E; [|exact Hin]. cbn in E.
  by rewrite bool_decide_eq_true_2 in E.
Qed.

(** ** Updating a record *)

(** C9. When no record has the id, [updateLead] does one thing: it
    dispatches the not-found error (the message is in Portuguese: "Lead
    não encontrado"). It makes no simulated call, and the records, the
    opportunities and the selection are as before. *)
Theorem update_unknown_lead (state : State) (leadId : string)
    (updates : Lead.updates) (optimistic : bool) (roll : Q) :
  Forall (fun l => Lead.id l <> leadId) (leads state) ->
  let events := updateLead state leadId updates optimistic roll in
  let state' := run state events in
  events = [Dispatch (SET_ERROR (Some "Lead não encontrado"))]
  /\ callsMade events = 0%nat
  /\ error state' = Some "Lead não encontrado"
  /\ leads state' = leads state
  /\ opportunities state' = opportunities state
  /\ selectedLead state' = selectedLead state.
Proof.
  intros Hnone. cbn zeta. unfold updateLead.
  rewrite (findLead_None _ _ Hnone). cbn. repeat split.
Qed.

Lemma update_unknown_lead_witness :
  error (run oneLead (updateLead oneLead "2" Lead.noUpdates true (1 # 2)))
  = Some "Lead não encontrado".
Proof.
  refine (proj1 (proj2 (proj2
            (update_unknown_lead oneLead "2" Lead.noUpdates true (1 # 2) _)))).
  repeat constructor. cbn. discriminate.
Defined.

(** What the record found by id becomes when every record of that id is
    rewritten by [f], provided [f] keeps the id. *)
Lemma find_rewritten (leadId : string) (f : Lead.t -> Lead.t) (ls : list Lead.t) :
  (forall l, Lead.id l = leadId -> Lead.id (f l) = leadId) ->
  find (fun l => bool_decide (Lead.id l = leadId))
       (map (fun l => if bool_decide (Lead.id l = leadId) then f l else l) ls)
  = option_map f (find (fun l => bool_decide (Lead.id l = leadId)) ls).
Proof.
  intros Hid. induction ls as [|l ls IH]; cbn; [done|].
  destruct (bool_decide (Lead.id l = leadId)) eqn:E.
  - apply bool_decide_eq_true in E.
    by rewrite bool_decide_eq_true_2 by (by apply Hid).
  - by rewrite E.
Qed.

(** ** Converting a lead *)

Section ConversionProperties.
Variable isoDate : Z -> string.

(** C4, amended. When the lead exists and an opportunity already
    refers to it, the conversion does one thing: it dispatches the
    error "Lead already converted into opportunity". No simulated call
    is made, both collections are as before, and the loading flag ends
    false (set-error clears it). *)
Theorem convert_duplicate (state : State) (leadId : string) (o : Oracle)
    (lead : Lead.t) (opp : Opportunity.t) :
  lead ∈ leads state -> Lead.id lead = leadId ->
  opp ∈ opportunities state -> Opportunity.leadId opp = Some leadId ->
  let events := convertLeadToOpportunity isoDate state leadId o in
  let state' := run state events in
  events = [Dispatch (SET_ERROR (Some "Lead already converted into opportunity"))]
  /\ callsMade events = 0%nat
  /\ opportunities state' = opportunities state
  /\ leads state' = leads state
  /\ isLoading state' = false
  /\ error state' = Some "Lead already converted into opportunity".
Proof.
  intros Hl Hlid Ho Hoid. cbn zeta. unfold convertLeadToOpportunity.
  destruct (findLead_is_Some _ _ _ Hl Hlid) as [l' ->].
  destruct (findOpportunity_is_Some _ _ _ Ho Hoid) as [o' ->].
  cbn. repeat split.
Qed.

(** Without the record the lookup fails first, and the error is the
    not-found one even though an opportunity refers to the id. *)
Lemma convert_unknown_lead (state : State) (leadId : string) (o : Oracle) :
  Forall (fun l => Lead.id l <> leadId) (leads state) ->
  convertLeadToOpportunity isoDate state leadId o
  = [Dispatch (SET_ERROR (Some "Lead not found"))].
Proof.
  intros H. unfold convertLeadToOpportunity. by rewrite (findLead_None _ _ H).
Qed.

(** C2. When the lookup finds [lead], no opportunity refers to the id
    and neither simulated call rejects (as with the failure probability
    forced to 0), the conversion ends with one more opportunity, at the
    end of the collection, carrying the lead's company as account name,
    its score as probability and the id as back-reference; every record
    of that id, the one found among them, has status "qualified"; and
    the loading flag is false. *)
Theorem convert_success (state : State) (leadId : string) (o : Oracle)
    (lead : Lead.t) :
  findLead state leadId = Some lead ->
  Forall (fun opp => Opportunity.leadId opp <> Some leadId) (opportunities state) ->
  rejects (callRoll o) (5 # 100) = false ->
  rejects (updateRoll o) (1 # 10) = false ->
  let state' := run state (convertLeadToOpportunity isoDate state leadId o) in
  (exists opp,
      opportunities state' = (opportunities state ++ [opp])%list
      /\ Opportunity.accountName opp = Lead.company lead
      /\ Opportunity.probability opp = Some (Lead.score lead)
      /\ Opportunity.leadId opp = Some leadId)
  /\ findLead state' leadId = Some (Lead.spread lead qualified)
  /\ (forall l, l ∈ leads state' -> Lead.id l = leadId ->
                Lead.status l = "qualified")
  /\ isLoading state' = false.
Proof.
  intros Hlead Hnone Hcall Hupd. cbn zeta.
  unfold convertLeadToOpportunity, addOpportunity, updateLead.
  rewrite Hlead, (findOpportunity_None _ _ Hnone), Hcall, Hupd. cbn.
  split; [eexists; repeat split|]. split; [|split; [|done]].
  - unfold findLead in *. cbn. rewrite find_rewritten by done.
    by rewrite Hlead.
  - intros l Hin Hid. apply list_elem_of_fmap in Hin as (l0 & -> & _).
    destruct (bool_decide (Lead.id l0 = leadId)) eqn:E; [done|].
    apply bool_decide_eq_false in E. by destruct E.
Qed.

(** C7. When the first simulated call succeeds and the status update
    that follows is rejected, the conversion ends with the new
    opportunity appended, the records as they were, the error of the
    update ("Lead upgrade failed") and the loading flag false. *)
Theorem convert_then_update_fails (state : State) (leadId : string)
    (o : Oracle) (lead : Lead.t) :
  findLead state leadId = Some lead ->
  Forall (fun opp => Opportunity.leadId opp <> Some leadId) (opportunities state) ->
  rejects (callRoll o) (5 # 100) = false ->
  rejects (updateRoll o) (1 # 10) = true ->
  let state' := run state (convertLeadToOpportunity isoDate state leadId o) in
  opportunities state'
  = (opportunities state
     ++ [Opportunity.withId (newOpportunity isoDate lead leadId o) (uuid o)])%list
  /\ leads state' = leads state
  /\ findLead state' leadId = Some lead
  /\ error state' = Some "Lead upgrade failed"
  /\ isLoading state' = false.
Proof.
  intros Hlead Hnone Hcall Hupd. cbn zeta.
  unfold convertLeadToOpportunity, addOpportunity, updateLead.
  rewrite Hlead, (findOpportunity_None _ _ Hnone), Hcall, Hupd. cbn.
  repeat split. exact Hlead.
Qed.
End ConversionProperties.

Lemma convert_duplicate_witness :
  error (run busy (convertLeadToOpportunity sampleDate busy "1" calmOracle))
  = Some "Lead already converted into opportunity".
Proof.
  refine (proj2 (proj2 (proj2 (proj2 (proj2
    (convert_duplicate sampleDate busy "1" calmOracle elizabeth bennetDeal
                       _ _ _ _)))))).
  - apply list_elem_of_here.
  - reflexivity.
  - apply list_elem_of_here.
  - reflexivity.
Defined.

(** C4 as stated fails: the duplicate check reports through set-error,
    which clears the loading flag another conversion had raised. *)
Lemma convert_duplicate_clears_loading :
  bennetDeal ∈ opportunities busy
  /\ Opportunity.leadId bennetDeal = Some "1"
  /\ ~ duplicateIsInert sampleDate busy "1" calmOracle.
Proof.
  split; [apply list_elem_of_here|]. split; [reflexivity|].
  intros (_ & _ & H & _). cbn in H. discriminate.
Qed.

(** The scenario of the specification: Elizabeth Bennet, no opportunity
    yet. *)
Lemma convert_success_witness :
  let state' := run oneLead (convertLeadToOpportunity sampleDate oneLead "1" calmOracle) in
  (exists opp,
      opportunities state' = [opp]
      /\ Opportunity.accountName opp = "Pride and Prejudice Ltd"
      /\ Opportunity.probability opp = Some 95
      /\ Opportunity.leadId opp = Some "1")
  /\ findLead state' "1" = Some (Lead.spread elizabeth qualified)
  /\ (forall l, l ∈ leads state' -> Lead.id l = "1" -> Lead.status l = "qualified")
  /\ isLoading state' = false.
Proof.
  apply (convert_success sampleDate oneLead "1" calmOracle elizabeth).
  - reflexivity.
  - constructor.
  - reflexivity.
  - reflexivity.
Defined.

Lemma convert_then_update_fails_witness :
  let state' := run oneLead (convertLeadToOpportunity sampleDate oneLead "1" lateFailure) in
  opportunities state'
  = [Opportunity.withId (newOpportunity sampleDate elizabeth "1" lateFailure)
                        (uuid lateFailure)]
  /\ leads state' = [elizabeth]
  /\ findLead state' "1" = Some elizabeth
  /\ error state' = Some "Lead upgrade failed"
  /\ isLoading state' = false.
Proof.
  apply (convert_then_update_fails sampleDate oneLead "1" lateFailure elizabeth).
  - reflexivity.
  - constructor.
  - reflexivity.
  - reflexivity.
Defined.

(** ** Optimistic update and rollback *)

Lemma spread_keeps_id (leadId : string) (updates : Lead.updates) (l : Lead.t) :
  keepsId leadId updates -> Lead.id l = leadId ->
  Lead.id (Lead.spread l updates) = leadId.
Proof.
  unfold keepsId. intros Hk <-. cbn. by destruct (Lead.u_id updates).
Qed.

(** Rolling back after the optimistic write is rolling back alone. *)
Lemma rollback_after_update (leadId : string) (updates : Lead.updates)
    (original : Lead.t) (ls : list Lead.t) :
  keepsId leadId updates ->
  map (fun l => if bool_decide (Lead.id l = leadId) then original else l)
      (map (fun l => if bool_decide (Lead.id l = leadId)
                     then Lead.spread l updates else l) ls)
  = map (fun l => if bool_decide (Lead.id l = leadId) then original else l) ls.
Proof.
  intros Hk. rewrite map_map. apply map_ext. intros l.
  destruct (bool_decide (Lead.id l = leadId)) eqn:E; [|by rewrite E].
  apply bool_decide_eq_true in E.
  by rewrite bool_decide_eq_true_2 by (by apply spread_keeps_id).
Qed.

Lemma rollback_elsewhere (leadId : string) (original : Lead.t) (ls : list Lead.t) :
  leadId ∉ map Lead.id ls ->
  map (fun l => if bool_decide (Lead.id l = leadId) then original else l) ls = ls.
Proof.
  induction ls as [|l ls IH]; cbn; [done|]. intros Hn.
  apply not_elem_of_cons in Hn as [Hne Hn].
  rewrite bool_decide_eq_false_2 by done. by rewrite IH.
Qed.

(** With unique ids, putting the snapshot back at its id gives the
    collection the snapshot was taken from. *)
Lemma rollback_unique (leadId : string) (original : Lead.t) (ls : list Lead.t) :
  NoDup (map Lead.id ls) ->
  find (fun l => bool_decide (Lead.id l = leadId)) ls = Some original ->
  map (fun l => if bool_decide (Lead.id l = leadId) then original else l) ls = ls.
Proof.
  induction ls as [|l ls IH]; cbn; [done|]. intros Hnd Hfind.
  apply NoDup_cons in Hnd as [Hnotin Hnd].
  destruct (bool_decide (Lead.id l = leadId)) eqn:E.
  - apply bool_decide_eq_true in E. subst leadId.
    injection Hfind as ->. by rewrite rollback_elsewhere.
  - by rewrite IH.
Qed.

(** C3, amended. [original] is the record the lookup finds, the update
    leaves the id alone, and the simulated call rejects. While the call
    is pending the record and, when it has the id, the selection carry
    the update. After the rejection every record of that id is
    [original] again, which with unique ids is the collection as it was;
    the selection of that id is [original] as well, which is the
    selection as it was when it mirrored its record; and the error is
    "Lead upgrade failed". *)
Theorem optimistic_rollback (state : State) (leadId : string)
    (updates : Lead.updates) (roll : Q) (original : Lead.t) :
  findLead state leadId = Some original ->
  keepsId leadId updates ->
  rejects roll (1 # 10) = true ->
  let events := updateLead state leadId updates true roll in
  let pending := run state (beforeCall events) in
  let final := run state events in
  findLead pending leadId = Some (Lead.spread original updates)
  /\ (forall sel, selectedLead state = Some sel -> Lead.id sel = leadId ->
                  selectedLead pending = Some (Lead.spread sel updates))
  /\ leads final
     = map (fun l => if bool_decide (Lead.id l = leadId) then original else l)
           (leads state)
  /\ (uniqueIds (leads state) -> leads final = leads state)
  /\ selectedLead final
     = (if selectedHasId (selectedLead state) leadId
        then Some original else selectedLead state)
  /\ (mirrors state -> selectedLead final = selectedLead state)
  /\ error final = Some "Lead upgrade failed".
Proof.
  intros Hfind Hk Hrej. cbn zeta. unfold updateLead. rewrite Hfind, Hrej. cbn.
  rewrite rollback_after_update by done.
  assert (Hsel : (if selectedHasId
                       (if selectedHasId (selectedLead state) leadId
                        then option_map (fun sel => Lead.spread sel updates)
                                        (selectedLead state)
                        else selectedLead state) leadId
                  then Some original
                  else if selectedHasId (selectedLead state) leadId
                       then option_map (fun sel => Lead.spread sel updates)
                                       (selectedLead state)
                       else selectedLead state)
                 = (if selectedHasId (selectedLead state) leadId
                    then Some original else selectedLead state)).
  { destruct (selectedLead state) as [sel|] eqn:Es; cbn; [|done].
    destruct (bool_decide (Lead.id sel = leadId)) eqn:E; cbn; [|by rewrite E].
    apply bool_decide_eq_true in E.
    by rewrite bool_decide_eq_true_2 by (by apply spread_keeps_id). }
  rewrite Hsel.
  split; [|split; [|split; [|split; [|split; [|split]]]]]; try done.
  - rewrite find_rewritten by (intros l; by apply spread_keeps_id).
    unfold findLead in Hfind. by rewrite Hfind.
  - intros sel -> Hid. cbn. by rewrite bool_decide_eq_true_2.
  - intros Hu. unfold findLead in Hfind. by apply rollback_unique.
  - intros Hm. destruct (selectedLead state) as [sel|] eqn:Es; cbn; [|done].
    destruct (bool_decide (Lead.id sel = leadId)) eqn:E; [|done].
    apply bool_decide_eq_true in E. specialize (Hm sel Es).
    rewrite E, Hfind in Hm. by rewrite Hm.
Qed.

Lemma optimistic_rollback_witness :
  let events := updateLead elizabethSelected "1" contacted true (5 # 100) in
  selectedLead (run elizabethSelected (beforeCall events))
  = Some (Lead.spread elizabeth contacted)
  /\ leads (run elizabethSelected events) = [elizabeth; darcy]
  /\ selectedLead (run elizabethSelected events) = Some elizabeth
  /\ error (run elizabethSelected events) = Some "Lead upgrade failed".
Proof.
  pose proof (optimistic_rollback elizabethSelected "1" contacted (5 # 100)
                elizabeth eq_refl eq_refl eq_refl) as (_ & Hp & _ & Hl & _ & Hs & He).
  split; [exact (Hp elizabeth eq_refl eq_refl)|].
  split; [apply Hl; unfold uniqueIds; by apply (bool_decide_unpack _)|].
  split; [apply Hs; intros sel [= <-]; reflexivity | exact He].
Defined.

(** C3 as stated fails on a selection that has the id and differs from
    the record: the rollback installs the record's snapshot in its
    place. *)
Lemma rollback_overwrites_selection :
  elizabeth ∈ leads draftSelected
  /\ rejects (5 # 100) (1 # 10) = true
  /\ ~ rollbackRestores draftSelected "1" contacted (5 # 100).
Proof.
  split; [apply list_elem_of_here|]. split; [reflexivity|].
  intros (_ & H & _). cbn in H. discriminate.
Qed.

(** An update that changes the id is out of reach of the rollback, which
    looks for the old id. *)
Lemma rollback_misses_renumbered :
  leads (run oneLead (updateLead oneLead "1" renumbered true (5 # 100)))
  = [Lead.spread elizabeth renumbered].
Proof. reflexivity. Qed.

(** With two records under one id the rollback gives both the snapshot
    of the first. *)
Lemma rollback_merges_twins :
  leads (run twins (updateLead twins "1" contacted true (5 # 100)))
  = [elizabeth; elizabeth].
Proof. reflexivity. Qed.

(** ** At most one opportunity per lead *)

Lemma convertedFrom_app (id : string) (opps1 opps2 : list Opportunity.t) :
  convertedFrom id (opps1 ++ opps2)
  = (convertedFrom id opps1 ++ convertedFrom id opps2)%list.
Proof. apply filter_app. Qed.

Lemma convertedFrom_not_found (state : State) (leadId : string) :
  findOpportunity state leadId = None ->
  convertedFrom leadId (opportunities state) = [].
Proof.
  unfold findOpportunity, convertedFrom. intros Hnone.
  induction (opportunities state) as [|o os IH]; [done|]. cbn in Hnone.
  destruct (bool_decide (Opportunity.leadId o = Some leadId)) eqn:E; [done|].
  apply bool_decide_eq_false in E. rewrite filter_cons_False by done. auto.
Qed.

(** Appending an opportunity for a lead that has none keeps the
    invariant. *)
Lemma append_first_conversion (state : State) (leadId : string)
    (opp : Opportunity.t) :
  atMostOnePerLead (opportunities state) ->
  findOpportunity state leadId = None ->
  Opportunity.leadId opp = Some leadId ->
  atMostOnePerLead (opportunities state ++ [opp]).
Proof.
  intros Hinv Hnone Hopp id. rewrite convertedFrom_app, length_app.
  destruct (decide (id = leadId)) as [->|Hne].
  - rewrite (convertedFrom_not_found _ _ Hnone). unfold convertedFrom.
    rewrite filter_cons_True by done. cbn. lia.
  - unfold convertedFrom at 2. rewrite filter_cons_False by congruence.
    cbn. specialize (Hinv id). lia.
Qed.

Section Invariant.
Variable isoDate : Z -> string.

Lemma convert_keeps_one_per_lead (state : State) (leadId : string) (o : Oracle) :
  atMostOnePerLead (opportunities state) ->
  atMostOnePerLead
    (opportunities (run state (convertLeadToOpportunity isoDate state leadId o))).
Proof.
  intros Hinv. unfold convertLeadToOpportunity.
  destruct (findLead state leadId) as [lead|]; [|done].
  destruct (findOpportunity state leadId) as [existing|] eqn:Hnone; [done|].
  destruct (rejects (callRoll o) (5 # 100)); [done|].
  unfold addOpportunity. rewrite !run_app.
  rewrite run_keeps_opportunities by (by repeat constructor).
  rewrite run_keeps_opportunities by apply updateLead_opportunities_free.
  cbn. by apply (append_first_conversion _ leadId).
Qed.

Lemma perform_keeps_one_per_lead (state : State) (op : Operation) :
  atMostOnePerLead (opportunities state) -> guarded op ->
  atMostOnePerLead (opportunities (perform isoDate state op)).
Proof.
  intros Hinv Hg. unfold perform.
  destruct op as [leadId o|leadId u opt roll| | | | | |action]; cbn [eventsOf].
  - by apply convert_keeps_one_per_lead.
  - by rewrite run_keeps_opportunities by apply updateLead_opportunities_free.
  - done.
  - done.
  - done.
  - done.
  - done.
  - destruct action; done.
Qed.

(** C1, amended. From a state in which no two opportunities refer to
    one lead (the initial state has none at all), operations performed
    one after the other keep it so, as long as opportunities are
    created by [convertLeadToOpportunity] only: [addOpportunity] and
    the add-opportunity transition are left out, and a bulk
    set-opportunities installs a list without duplicates. *)
Theorem guarded_operations_keep_one_per_lead (ops : list Operation) (state : State) :
  atMostOnePerLead (opportunities state) ->
  Forall guarded ops ->
  atMostOnePerLead (opportunities (performAll isoDate state ops)).
Proof.
  intros Hinv Hops. revert state Hinv.
  induction Hops as [|op ops Hop _ IH]; intros state Hinv; [done|].
  cbn. apply IH. by apply perform_keeps_one_per_lead.
Qed.
End Invariant.

(** Two conversions of the same lead in a row: the second one is stopped
    and Elizabeth has one opportunity. *)
Lemma guarded_operations_keep_one_per_lead_witness :
  atMostOnePerLead
    (opportunities
       (performAll sampleDate freshState
          [Transition (SET_LEADS [elizabeth; darcy]);
           Convert "1" calmOracle; Convert "1" calmOracle])).
Proof.
  apply (guarded_operations_keep_one_per_lead sampleDate).
  - intros id. cbn. lia.
  - repeat constructor.
Defined.

(** Operations that overlap are another matter. A second conversion of
    Elizabeth, invoked while the simulated call of the first is pending,
    reads a state without opportunity, passes the duplicate check, and in
    the end there are two. *)
Example overlapping_conversions :
  let first := convertLeadToOpportunity sampleDate oneLead "1" calmOracle in
  let pending := run oneLead (beforeCall first) in
  let second := convertLeadToOpportunity sampleDate pending "1" calmOracle in
  let final := run (run (run pending (beforeCall second)) (afterCall first))
                   (afterCall second) in
  length (convertedFrom "1" (opportunities final)) = 2%nat.
Proof. reflexivity. Qed.

(** C1 as stated fails: [addOpportunity] appends whatever it is given,
    and called twice with an opportunity of lead "1" it leaves two of
    them. *)
Lemma add_opportunity_twice :
  ~ onePerLeadAlways sampleDate freshState.
Proof.
  intros H.
  specialize (H [AddOpportunity bennetDeal "0d5f0c1e-0001";
                 AddOpportunity bennetDeal "0d5f0c1e-0002"] "1").
  vm_compute in H. lia.
Qed.

(** ** Persisted filters *)

Lemma spread_spread (a b : json) : spread a (spread a b) = spread a b.
Proof.
  unfold spread. cbn [ownProps]. f_equal.
  by rewrite <-(assoc_L (∪)), (idemp_L (∪)).
Qed.

Section FilterStorage.
Variable JSON_parse : string -> option json.
Variable JSON_stringify : json -> string.

(** Whatever parses is taken as the criteria, whatever its shape. *)
Lemma load_parsed (ls : Storage) (saved : string) (value : json) :
  readable ls = true ->
  items ls !! STORAGE_KEYS.FILTERS = Some saved ->
  saved <> "" ->
  JSON_parse saved = Some value ->
  loadFiltersFromStorage JSON_parse ls = value.
Proof.
  intros Hr Hs Hne Hp. unfold loadFiltersFromStorage, getItem, truthy.
  rewrite Hr, Hs, bool_decide_eq_false_2 by done. cbn. by rewrite Hp.
Qed.

Lemma load_defaults (ls : Storage) :
  absentOrMalformed JSON_parse ls ->
  loadFiltersFromStorage JSON_parse ls = defaultFilters.
Proof.
  unfold absentOrMalformed, loadFiltersFromStorage, getItem.
  intros H. destruct (readable ls); [|done].
  destruct (items ls !! STORAGE_KEYS.FILTERS) as [saved|]; [|done].
  destruct (truthy saved); [|done]. by rewrite H.
Qed.

(** C8. [setFilters] merges the criteria it is given into the current
    ones, writes the JSON text of the result under
    "seller_console_filters" and dispatches it; when the write succeeds
    and [JSON.parse] gives back the value [JSON.stringify] was given, a
    store initialised from that storage starts with exactly the
    criteria the running store now has. And a store initialised from a
    storage where the key is absent, or holds a text [JSON.parse]
    rejects, starts with the defaults. *)
Theorem filters_round_trip (state : State) (ls : Storage) (partial : json) :
  let merged := spread (filters state) partial in
  let stored := fst (setFilters JSON_stringify state ls partial) in
  let events := snd (setFilters JSON_stringify state ls partial) in
  (writable ls = true -> readable ls = true ->
   JSON_stringify merged <> "" ->
   JSON_parse (JSON_stringify merged) = Some merged ->
   items stored !! "seller_console_filters" = Some (JSON_stringify merged)
   /\ filters (run state events) = merged
   /\ filters (initialState JSON_parse stored) = filters (run state events))
  /\ (forall ls0, absentOrMalformed JSON_parse ls0 ->
        filters (initialState JSON_parse ls0)
        = JObj (list_to_map [("search", JStr ""); ("status", JStr "all");
                             ("sortBy", JStr "score"); ("sortOrder", JStr "desc")])).
Proof.
  cbn zeta. split.
  - intros Hw Hr Hne Hround. unfold setFilters, setItem. rewrite Hw. cbn.
    rewrite spread_spread. split; [apply lookup_insert_eq|]. split; [done|].
    eapply load_parsed; cbn; [done|apply lookup_insert_eq|done|done].
  - intros ls0 H. cbn. by apply load_defaults.
Qed.
End FilterStorage.

Lemma filters_round_trip_witness :
  filters (initialState sampleParse
             (fst (setFilters sampleStringify freshState emptyStorage sampleCriteria)))
  = filters (run freshState
               (snd (setFilters sampleStringify freshState emptyStorage sampleCriteria))).
Proof.
  refine (proj2 (proj2 (proj1
    (filters_round_trip sampleParse sampleStringify freshState emptyStorage
                        sampleCriteria) _ _ _ _))).
  - reflexivity.
  - reflexivity.
  - vm_compute. discriminate.
  - vm_compute. reflexivity.
Defined.

(** ** The error auto-clear timer *)

Section ErrorTimerProperties.
Import ErrorTimer.

Lemma store_render (w : World) (actions : list Action) :
  store (render w actions) = fold_left appReducer actions (store w).
Proof. unfold render. by destruct (decide _). Qed.

Lemma clock_render (w : World) (actions : list Action) :
  clock (render w actions) = clock w.
Proof. unfold render. by destruct (decide _). Qed.

(** A render that changes the error to a non-empty message replaces
    whatever timer was pending by one due in five seconds. *)
Lemma render_new_error (w : World) (actions : list Action) (message : string) :
  error (store (render w actions)) = Some message ->
  message <> "" ->
  error (store w) <> Some message ->
  timer (render w actions) = Some (clock w + 5000).
Proof.
  rewrite store_render. unfold render. intros He Hne Hold.
  destruct (decide _) as [Heq|_]; [congruence|]. cbn.
  unfold effect, errorSet, truthy. rewrite He.
  by rewrite bool_decide_eq_false_2.
Qed.

(** A render that leaves the error null leaves no timer behind it,
    provided none was pending while the error was null. *)
Lemma render_error_cleared (w : World) (actions : list Action) :
  error (store (render w actions)) = None ->
  (error (store w) = None -> timer w = None) ->
  timer (render w actions) = None.
Proof.
  rewrite store_render. unfold render. intros He Hw.
  destruct (decide _) as [Heq|_]; cbn.
  - apply Hw. congruence.
  - unfold effect, errorSet. by rewrite He.
Qed.

Lemma advance_before (w : World) (deadline ms : Z) :
  timer w = Some deadline -> clock w + ms < deadline ->
  advance ms w = mkWorld (store w) (clock w + ms) (Some deadline).
Proof.
  intros Ht Hlt. unfold advance. rewrite Ht.
  by rewrite (proj2 (Z.leb_gt _ _)) by done.
Qed.

Lemma advance_fires (w : World) (deadline ms : Z) :
  timer w = Some deadline -> deadline <= clock w + ms ->
  error (store (advance ms w)) = None /\ timer (advance ms w) = None.
Proof.
  intros Ht Hle. unfold advance. rewrite Ht.
  rewrite (proj2 (Z.leb_le _ _)) by done. cbn [store timer].
  split.
  - unfold dispatch. by rewrite store_render.
  - unfold dispatch. apply render_error_cleared; [|done].
    by rewrite store_render.
Qed.

(** The error a fresh timer guards lasts five seconds, no less and no
    more. *)
Lemma fresh_timer (w : World) (message : string) :
  error (store w) = Some message ->
  timer w = Some (clock w + 5000) ->
  (forall d, 0 <= d < 5000 -> error (store (advance d w)) = Some message)
  /\ error (store (advance 5000 w)) = None.
Proof.
  intros He Ht. split.
  - intros d Hd. by rewrite (advance_before _ _ _ Ht) by lia.
  - by apply (advance_fires _ _ _ Ht).
Qed.

(** C6, amended. When a render changes the current error to a
    non-empty message, whatever timer was pending, the error is still
    that message after any delay under 5000 ms, and is null after 5000
    ms. Before that, an explicit clear leaves no timer pending, and a
    different non-empty message, set with or without a clear before
    it, lasts its own 5000 ms. *)
Theorem error_auto_clear (w : World) (actions : list Action) (message : string) :
  let w1 := render w actions in
  error (store w1) = Some message ->
  message <> "" ->
  error (store w) <> Some message ->
  (forall d, 0 <= d < 5000 -> error (store (advance d w1)) = Some message)
  /\ error (store (advance 5000 w1)) = None
  /\ (forall d, 0 <= d < 5000 ->
        let cleared := dispatch (advance d w1) CLEAR_ERROR in
        error (store cleared) = None /\ timer cleared = None)
  /\ (forall d (clearFirst : bool) (other : string),
        0 <= d < 5000 -> other <> "" ->
        (clearFirst = false -> other <> message) ->
        let w2 := dispatch (if clearFirst
                            then dispatch (advance d w1) CLEAR_ERROR
                            else advance d w1)
                           (SET_ERROR (Some other)) in
        (forall d2, 0 <= d2 < 5000 -> error (store (advance d2 w2)) = Some other)
        /\ error (store (advance 5000 w2)) = None).
Proof.
  intros w1 He Hne Hold.
  pose proof (render_new_error _ _ _ He Hne Hold) as Ht.
  assert (Hc : clock w1 = clock w) by apply clock_render.
  fold w1 in Ht. rewrite <-Hc in Ht.
  destruct (fresh_timer _ _ He Ht) as [Hlive Hdead].
  split; [done|]. split; [done|].
  assert (Hadv : forall d, 0 <= d < 5000 ->
            advance d w1 = mkWorld (store w1) (clock w1 + d) (Some (clock w1 + 5000))).
  { intros d Hd. apply advance_before; [done|lia]. }
  split.
  - intros d Hd. cbn zeta. rewrite (Hadv d Hd). unfold dispatch.
    split; [by rewrite store_render|].
    unfold render. cbn. rewrite He. by destruct (decide _).
  - intros d clearFirst other Hd Hother Hdiff w2.
    assert (exists w0, w2 = dispatch w0 (SET_ERROR (Some other))
                       /\ error (store w0) <> Some other) as (w0 & Hw2 & Hw0).
    { destruct clearFirst.
      - eexists. split; [done|]. unfold dispatch at 1. by rewrite store_render.
      - eexists. split; [done|]. rewrite (Hadv d Hd). cbn. rewrite He.
        intros [= ->]. by apply Hdiff. }
    assert (He2 : error (store w2) = Some other).
    { rewrite Hw2. unfold dispatch. by rewrite store_render. }
    apply fresh_timer; [done|].
    rewrite Hw2 in He2 |- *. unfold dispatch in *.
    rewrite clock_render. by apply (render_new_error _ _ other).
Qed.
End ErrorTimerProperties.

Lemma error_auto_clear_witness :
  error (ErrorTimer.store
           (ErrorTimer.advance 4999
              (ErrorTimer.render (ErrorTimer.mount freshState 0)
                                 [SET_ERROR (Some "Lead not found")])))
  = Some "Lead not found"
  /\ error (ErrorTimer.store
              (ErrorTimer.advance 5000
                 (ErrorTimer.render (ErrorTimer.mount freshState 0)
                                    [SET_ERROR (Some "Lead not found")])))
     = None.
Proof.
  pose proof (error_auto_clear (ErrorTimer.mount freshState 0)
                [SET_ERROR (Some "Lead not found")] "Lead not found"
                eq_refl) as H.
  destruct H as (Hlive & Hdead & _); [discriminate|discriminate|].
  split; [apply Hlive; lia | exact Hdead].
Defined.

(** C6 as stated fails when the newer error repeats the message of the
    pending one: the error the effect depends on has not changed, the
    effect does not run again, and the first timer clears the error two
    seconds after it was set anew. *)
Lemma same_message_keeps_old_timer :
  0 <= 3000 < 5000 /\ 0 <= 2000 < 5000
  /\ ~ newerErrorOutlivesOldTimer freshState
         "Lead already converted into opportunity"
         "Lead already converted into opportunity" 3000 2000.
Proof.
  split; [lia|]. split; [lia|]. unfold newerErrorOutlivesOldTimer.
  vm_compute. discriminate.
Qed.

(** An empty message is an error the effect does not see: no timer is
    set for it. *)
Lemma empty_message_is_never_cleared (ms : Z) :
  error (ErrorTimer.store
           (ErrorTimer.advance ms
              (ErrorTimer.dispatch (ErrorTimer.mount freshState 0)
                                   (SET_ERROR (Some "")))))
  = Some "".
Proof. reflexivity. Qed.

(** ** The sort *)

Section SortProperties.
Import LeadsList.
Context {A : Type} (compareFn : A -> A -> Z).

Lemma insert_Permutation (x : A) (l : list A) :
  insert compareFn x l ≡ₚ x :: l.
Proof.
  induction l as [|y l IH]; cbn; [done|].
  destruct (compareFn x y <=? 0); [done|].
  rewrite IH. apply Permutation_swap.
Qed.

Lemma sorted_Permutation (l : list A) : sorted compareFn l ≡ₚ l.
Proof.
  induction l as [|x l IH]; cbn; [done|].
  fold (sorted compareFn l). by rewrite insert_Permutation, IH.
Qed.

(** Equal keys keep their relative order: seen through the keys equal
    to any given element, the sort changes nothing. *)
Lemma insert_stable (a x : A) (l : list A) :
  Consistent compareFn ->
  List.filter (fun y => compareFn a y =? 0) (insert compareFn x l)
  = List.filter (fun y => compareFn a y =? 0) (x :: l).
Proof.
  intros Hc. induction l as [|y l IH]; [done|]. cbn [insert].
  destruct (compareFn x y <=? 0) eqn:Exy; [done|].
  apply Z.leb_gt in Exy.
  cbn [List.filter] in *. rewrite IH.
  destruct (compareFn a x =? 0) eqn:Eax, (compareFn a y =? 0) eqn:Eay; try done.
  apply Z.eqb_eq in Eax, Eay.
  pose proof (cmp_equal _ Hc a x y Eax Eay). lia.
Qed.

Lemma sorted_stable (a : A) (l : list A) :
  Consistent compareFn ->
  List.filter (fun y => compareFn a y =? 0) (sorted compareFn l)
  = List.filter (fun y => compareFn a y =? 0) l.
Proof.
  intros Hc. induction l as [|x l IH]; [done|].
  cbn [sorted foldr]. fold (sorted compareFn l).
  rewrite insert_stable by done. cbn [List.filter]. by rewrite IH.
Qed.

Lemma insert_StronglySorted (x : A) (l : list A) :
  Consistent compareFn ->
  StronglySorted (fun a b => compareFn a b <= 0) l ->
  StronglySorted (fun a b => compareFn a b <= 0) (insert compareFn x l).
Proof.
  intros Hc. induction 1 as [|y l Hl IH Hy]; cbn [insert].
  - repeat constructor.
  - destruct (compareFn x y <=? 0) eqn:Exy.
    + apply Z.leb_le in Exy. constructor; [by constructor|].
      constructor; [done|].
      eapply Forall_impl; [exact Hy|]. intros z Hz.
      by apply (cmp_trans _ Hc x y z).
    + apply Z.leb_gt in Exy. constructor; [done|].
      rewrite insert_Permutation. constructor; [|done].
      apply (cmp_total _ Hc). lia.
Qed.

Lemma sorted_StronglySorted (l : list A) :
  Consistent compareFn ->
  StronglySorted (fun a b => compareFn a b <= 0) (sorted compareFn l).
Proof.
  intros Hc. induction l as [|x l IH]; [constructor|].
  cbn [sorted foldr]. by apply insert_StronglySorted.
Qed.
End SortProperties.

Lemma Consistent_on {A B} (f : A -> B) (compareFn : B -> B -> Z) :
  Consistent compareFn -> Consistent (fun x y => compareFn (f x) (f y)).
Proof. intros [Ht Htr He]. constructor; eauto. Qed.

(** ** The derived view *)

Lemma filter_filter {A} (p q : A -> bool) (l : list A) :
  List.filter q (List.filter p l) = List.filter (fun x => p x && q x) l.
Proof.
  induction l as [|x l IH]; cbn; [done|].
  destruct (p x); cbn; [|done]. destruct (q x); by rewrite IH.
Qed.

Lemma filter_all {A} (l : list A) : List.filter (fun _ => true) l = l.
Proof. induction l as [|x l IH]; cbn; by rewrite ?IH. Qed.

Lemma StronglySorted_weaken {A} (R S : A -> A -> Prop) (l : list A) :
  (forall x y, R x y -> S x y) -> StronglySorted R l -> StronglySorted S l.
Proof.
  intros HRS. induction 1 as [|x l _ IH Hx]; constructor; [done|].
  eapply Forall_impl; [exact Hx|]. intros y. apply HRS.
Qed.

Section ViewProperties.
Import LeadsList.
Variable toLowerCase : string -> string.
Variable localeCompare : string -> string -> Z.
Variable stringToNumber : string -> option Z.

(** One key reads as text on every lead, or as a number on every
    lead, or is undefined on every lead. *)
Lemma field_kind (key : string) :
  (exists f, forall l, field l key = VString (f l))
  \/ (exists f, forall l, field l key = VNumber (f l))
  \/ (forall l, field l key = VUndefined).
Proof.
  unfold field. repeat case_bool_decide.
  - left. by exists Lead.id.
  - left. by exists Lead.name.
  - left. by exists Lead.company.
  - left. by exists Lead.email.
  - left. by exists Lead.source.
  - right. left. by exists Lead.score.
  - left. by exists Lead.status.
  - right. by right.
Qed.

Hypothesis localeCompare_consistent : consistent localeCompare.

Lemma localeCompare_flip (a b : string) :
  localeCompare a b > 0 -> localeCompare b a <= 0.
Proof.
  destruct localeCompare_consistent as [Hanti _]. specialize (Hanti a b).
  destruct (localeCompare a b), (localeCompare b a); cbn in Hanti; lia.
Qed.

Lemma localeCompare_zero (a b : string) :
  localeCompare a b = 0 -> localeCompare b a = 0.
Proof.
  destruct localeCompare_consistent as [Hanti _]. specialize (Hanti a b).
  destruct (localeCompare a b), (localeCompare b a); cbn in Hanti; lia.
Qed.

Lemma compareFn_Consistent (filters : Filters) :
  Consistent (compareFn localeCompare stringToNumber filters).
Proof.
  pose proof localeCompare_flip as Hflip.
  pose proof localeCompare_zero as Hzero.
  destruct localeCompare_consistent as [_ Htrans].
  unfold compareFn.
  destruct (field_kind (sortBy filters)) as [[f Hf]|[[f Hf]|Hf]];
    constructor; intros *; rewrite !Hf; cbn;
    destruct (bool_decide (sortOrder filters = "desc")); try lia; eauto.
  all: intros H1 H2; pose proof (Hzero _ _ H1); pose proof (Hzero _ _ H2);
    apply (Htrans _ (f a)); lia.
Qed.

(** *** Running the view on a heap *)

Lemma alloc_spec (h0 h : Heap) (l : list ref) :
  preserves h0 h ->
  preserves h0 (snd (alloc l h))
  /\ (fst (alloc l h) ∉ dom (arrays h0))
  /\ arrays (snd (alloc l h)) !! fst (alloc l h) = Some l.
Proof.
  intros [Hobj Harr]. unfold alloc. cbn.
  assert (Hfresh : fresh (dom (arrays h)) ∉ dom (arrays h0)).
  { intros Hin. apply (is_fresh (dom (arrays h))).
    apply elem_of_dom. rewrite (Harr _ Hin). by apply elem_of_dom. }
  split; [split; [done|]|split; [done|apply lookup_insert_eq]].
  intros a Ha. cbn. rewrite lookup_insert_ne; [by apply Harr|].
  intros <-. by apply Hfresh.
Qed.

(** A filter stage that runs only under [cond]. *)
Lemma stage_spec (cond : bool) (callback : Lead.t -> bool) (h0 h : Heap)
    (a : ref) (l : list ref) :
  preserves h0 h -> a ∉ dom (arrays h0) -> arrays h !! a = Some l ->
  let r := (if cond then filterArray callback a else mret a) h in
  preserves h0 (snd r)
  /\ (fst r ∉ dom (arrays h0))
  /\ arrays (snd r) !! fst r
     = Some (List.filter (fun x => if cond then callback (objects h0 x) else true) l).
Proof.
  intros Hp Ha Hl. destruct cond; cbn zeta.
  - unfold filterArray, elementsOf. rewrite Hl. cbn [default].
    destruct Hp as [Hobj Harr]. rewrite Hobj.
    by apply alloc_spec.
  - cbn. by rewrite filter_all.
Qed.

Lemma selects_stages (filters : Filters) (lead : Lead.t) :
  (if truthy (search filters)
   then includes (toLowerCase (Lead.name lead)) (toLowerCase (search filters))
        || includes (toLowerCase (Lead.company lead)) (toLowerCase (search filters))
   else true)
  && (if negb (bool_decide (status filters = "all"))
      then bool_decide (Lead.status lead = status filters)
      else true)
  = selects toLowerCase filters lead.
Proof.
  unfold selects, truthy.
  destruct (bool_decide (search filters = "")),
           (bool_decide (status filters = "all")); by cbn.
Qed.

Lemma inOrder_orderAsked (filters : Filters) (a b : Lead.t) :
  inOrder localeCompare stringToNumber filters a b ->
  orderAsked localeCompare filters a b.
Proof.
  unfold inOrder, orderAsked, compareFn.
  destruct (field_kind (sortBy filters)) as [[f Hf]|[[f Hf]|Hf]];
    rewrite !Hf; cbn; destruct (bool_decide _); cbn; lia.
Qed.

(** C5. On a heap where [leads] is an array of records, the view is a
    new array. It holds the records of [leads] that the criteria
    select, each as often as [leads] does: those whose lower-cased name
    or company includes the lower-cased search string (all of them for
    an empty string) and whose status is the one asked for (all of them
    for "all"). It is sorted by the comparator, which is the order the
    specification asks for, and records that compare equal come in the
    order [leads] has them. No record and no array of the heap has
    changed, [leads] included, and every element of the view is an
    element of [leads], the same reference. *)
Theorem filteredLeads_spec (h : Heap) (leads : ref) (input : list ref)
    (filters : Filters) :
  arrays h !! leads = Some input ->
  let result := filteredLeads toLowerCase localeCompare stringToNumber
                              leads filters h in
  let kept := List.filter (fun r => selects toLowerCase filters (objects h r))
                          input in
  exists output,
    arrays (snd result) !! fst result = Some output
    /\ output ≡ₚ kept
    /\ StronglySorted
         (fun x y => inOrder localeCompare stringToNumber filters
                             (objects h x) (objects h y)) output
    /\ StronglySorted
         (fun x y => orderAsked localeCompare filters (objects h x) (objects h y))
         output
    /\ (forall x,
          List.filter (fun y => sameKey localeCompare stringToNumber filters
                                        (objects h x) (objects h y)) output
          = List.filter (fun y => sameKey localeCompare stringToNumber filters
                                          (objects h x) (objects h y)) kept)
    /\ (forall r, r ∈ output -> r ∈ input)
    /\ preserves h (snd result)
    /\ arrays (snd result) !! leads = Some input
    /\ (fst result ∉ dom (arrays h)).
Proof.
  intros Hleads. cbv zeta.
  unfold filteredLeads, mbind, M_bind.
  assert (Hp0 : preserves h h) by done.
  assert (Ecopy : copyArray leads h = alloc input h).
  { unfold copyArray, elementsOf. by rewrite Hleads. }
  rewrite Ecopy.
  pose proof (alloc_spec h h input Hp0) as (Hp1 & Ha1 & Hl1).
  destruct (alloc input h) as [a1 h1]. cbn [fst snd] in Hp1, Ha1, Hl1.
  match goal with
  | |- context [ (if ?c then filterArray ?cb a1 else mret a1) h1 ] =>
      pose proof (stage_spec c cb h h1 a1 input Hp1 Ha1 Hl1) as (Hp2 & Ha2 & Hl2);
      destruct ((if c then filterArray cb a1 else mret a1) h1) as [a2 h2]
  end.
  cbn [fst snd] in Hp2, Ha2, Hl2.
  match goal with
  | |- context [ (if ?c then filterArray ?cb a2 else mret a2) h2 ] =>
      pose proof (stage_spec c cb h h2 a2 _ Hp2 Ha2 Hl2) as (Hp3 & Ha3 & Hl3);
      destruct ((if c then filterArray cb a2 else mret a2) h2) as [a3 h3]
  end.
  cbn [fst snd] in Hp3, Ha3, Hl3.
  rewrite filter_filter in Hl3.
  rewrite (List.filter_ext _ _ (fun r => selects_stages filters (objects h r))) in Hl3.
  unfold sortArray, elementsOf, mret, M_ret. cbn [fst snd arrays objects].
  rewrite Hl3. cbn [default from_option id]. destruct Hp3 as [Hobj Harr]. rewrite Hobj.
  pose proof (Consistent_on (objects h) _ (compareFn_Consistent filters)) as Hc.
  eexists. split; [apply lookup_insert_eq|].
  split; [apply sorted_Permutation|].
  split; [by apply sorted_StronglySorted|].
  split.
  { eapply StronglySorted_weaken; [|by apply sorted_StronglySorted].
    intros x y. apply inOrder_orderAsked. }
  split.
  { intros x. unfold sameKey.
    exact (sorted_stable
             (fun x y => compareFn localeCompare stringToNumber filters
                                   (objects h x) (objects h y)) x _ Hc). }
  split.
  { intros r Hr. rewrite sorted_Permutation in Hr.
    apply list_elem_of_In, filter_In in Hr as [Hr _]. by apply list_elem_of_In. }
  assert (Hfresh : forall a, a ∈ dom (arrays h) -> a3 ≠ a) by (by intros a Ha ->).
  split; [split; [done|]|split; [|done]].
  - intros a Ha. cbn. rewrite lookup_insert_ne by auto. by apply Harr.
  - assert (Hin : leads ∈ dom (arrays h)) by (by apply elem_of_dom).
    rewrite lookup_insert_ne by auto. by rewrite Harr.
Qed.
End ViewProperties.

Lemma string_compare_trans (a b c : string) :
  String.compare a b <> Gt -> String.compare b c <> Gt ->
  String.compare a c <> Gt.
Proof.
  revert b c. induction a as [|x a IH]; intros [|y b] [|z c]; cbn; try done.
  unfold Ascii.compare.
  destruct (N.compare_spec (Ascii.N_of_ascii x) (Ascii.N_of_ascii y)),
           (N.compare_spec (Ascii.N_of_ascii y) (Ascii.N_of_ascii z)),
           (N.compare_spec (Ascii.N_of_ascii x) (Ascii.N_of_ascii z));
    intros; try done; try lia; eauto.
Qed.

Lemma codeUnitCompare_consistent : LeadsList.consistent codeUnitCompare.
Proof.
  split.
  - intros a b. unfold codeUnitCompare. rewrite (String.compare_antisym a b).
    by destruct (String.compare b a).
  - intros a b c. unfold codeUnitCompare.
    pose proof (string_compare_trans a b c) as H.
    destruct (String.compare a b), (String.compare b c), (String.compare a c);
      intros; try done; try lia; exfalso; by apply H.
Qed.

(** Searching "PRIDE" and sorting by ascending score puts Darcy (92)
    before Elizabeth (95) in a new array and leaves [leads] as it is. *)
Example view_of_sample :
  let result := LeadsList.filteredLeads asciiLowerCase codeUnitCompare noNumber
                                        10%positive prideByScore sampleHeap in
  LeadsList.arrays (snd result) !! fst result = Some [2%positive; 1%positive]
  /\ LeadsList.arrays (snd result) !! 10%positive = Some [1%positive; 2%positive].
Proof. by vm_compute. Qed.

Example view_by_name_descending :
  let result := LeadsList.filteredLeads asciiLowerCase codeUnitCompare noNumber
                                        10%positive byNameDescending sampleHeap in
  LeadsList.arrays (snd result) !! fst result = Some [2%positive; 1%positive].
Proof. by vm_compute. Qed.

Lemma filteredLeads_spec_witness :
  let result := LeadsList.filteredLeads asciiLowerCase codeUnitCompare noNumber
                                        10%positive prideByScore sampleHeap in
  exists output,
    LeadsList.arrays (snd result) !! fst result = Some output
    /\ output ≡ₚ [1%positive; 2%positive]
    /\ preserves sampleHeap (snd result)
    /\ (fst result ∉ dom (LeadsList.arrays sampleHeap)).
Proof.
  destruct (filteredLeads_spec asciiLowerCase codeUnitCompare noNumber
              codeUnitCompare_consistent sampleHeap 10%positive
              [1%positive; 2%positive] prideByScore eq_refl)
    as (output & Hout & Hperm & _ & _ & _ & _ & Hpres & _ & Hnew).
  exists output. split; [exact Hout|]. split; [exact Hperm|].
  split; [exact Hpres | exact Hnew].
Defined.

(** * Further properties *)

(** ** The paths of an update *)

(** X1. When the record exists and the simulated call succeeds, the
    optimistic and the pessimistic update end in the same state, the
    state the update-lead transition gives; they differ while the call is
    pending, when the optimistic one already shows that state and the
    pessimistic one still shows the old one. Each makes one simulated
    call. *)
Theorem update_success_paths_agree (state : State) (leadId : string)
    (updates : Lead.updates) (roll : Q) (original : Lead.t) :
  findLead state leadId = Some original ->
  rejects roll (1 # 10) = false ->
  let optimistic := updateLead state leadId updates true roll in
  let pessimistic := updateLead state leadId updates false roll in
  run state optimistic = appReducer state (UPDATE_LEAD leadId updates)
  /\ run state pessimistic = run state optimistic
  /\ run state (beforeCall optimistic) = run state optimistic
  /\ run state (beforeCall pessimistic) = state
  /\ callsMade optimistic = 1%nat
  /\ callsMade pessimistic = 1%nat.
Proof.
  intros Hfind Hok. cbn zeta. unfold updateLead. rewrite Hfind, Hok.
  cbn. repeat split.
Qed.

Lemma update_success_paths_agree_witness :
  run oneLead (updateLead oneLead "1" contacted false (9 # 10))
  = run oneLead (updateLead oneLead "1" contacted true (9 # 10)).
Proof.
  exact (proj1 (proj2 (update_success_paths_agree oneLead "1" contacted (9 # 10)
                         elizabeth eq_refl eq_refl))).
Defined.

(** X2. A pessimistic update whose simulated call is rejected changes
    nothing but the error and the loading flag: the state is untouched
    while the call is pending, and afterwards it is the state the
    set-error transition gives, with every record, the selection and the
    opportunities as before. *)
Theorem pessimistic_failure (state : State) (leadId : string)
    (updates : Lead.updates) (roll : Q) (original : Lead.t) :
  findLead state leadId = Some original ->
  rejects roll (1 # 10) = true ->
  let events := updateLead state leadId updates false roll in
  run state (beforeCall events) = state
  /\ run state events = appReducer state (SET_ERROR (Some "Lead upgrade failed"))
  /\ leads (run state events) = leads state
  /\ selectedLead (run state events) = selectedLead state
  /\ opportunities (run state events) = opportunities state.
Proof.
  intros Hfind Hrej. cbn zeta. unfold updateLead. rewrite Hfind, Hrej.
  cbn. repeat split.
Qed.

Lemma pessimistic_failure_witness :
  leads (run draftSelected (updateLead draftSelected "1" renumbered false (5 # 100)))
  = leads draftSelected
  /\ selectedLead (run draftSelected
                     (updateLead draftSelected "1" renumbered false (5 # 100)))
     = selectedLead draftSelected.
Proof.
  pose proof (pessimistic_failure draftSelected "1" renumbered (5 # 100)
                elizabeth eq_refl eq_refl) as (_ & _ & Hl & Hs & _).
  split; [exact Hl | exact Hs].
Defined.

(** ** What an update and a conversion never do *)

Lemma ids_rewritten (leadId : string) (f : Lead.t -> Lead.t) (ls : list Lead.t) :
  (forall l, Lead.id l = leadId -> Lead.id (f l) = leadId) ->
  map Lead.id (map (fun l => if bool_decide (Lead.id l = leadId) then f l else l) ls)
  = map Lead.id ls.
Proof.
  intros Hf. rewrite map_map. apply map_ext. intros l.
  destruct (bool_decide (Lead.id l = leadId)) eqn:E; [|done].
  apply bool_decide_eq_true in E. rewrite Hf by done. by rewrite E.
Qed.

(** X3. An update that leaves the id alone never changes which ids the
    collection holds, nor their order, whichever path it takes and
    however the simulated call ends; in particular unique ids stay
    unique. It never touches the opportunities or the filters. *)
Theorem update_keeps_ids (state : State) (leadId : string)
    (updates : Lead.updates) (optimistic : bool) (roll : Q) :
  keepsId leadId updates ->
  let final := run state (updateLead state leadId updates optimistic roll) in
  map Lead.id (leads final) = map Lead.id (leads state)
  /\ (uniqueIds (leads state) -> uniqueIds (leads final))
  /\ opportunities final = opportunities state
  /\ filters final = filters state.
Proof.
  intros Hk. cbn zeta.
  assert (Hids : map Lead.id
                   (leads (run state (updateLead state leadId updates optimistic roll)))
                 = map Lead.id (leads state)).
  { unfold updateLead. destruct (findLead state leadId) as [original|] eqn:Hfind;
      [|done].
    apply findLead_Some in Hfind as [_ Hid].
    destruct optimistic, (rejects roll (1 # 10)); cbn;
      rewrite ?ids_rewritten; try done;
      intros l Hl; by (apply spread_keeps_id || idtac). }
  split; [done|]. split; [unfold uniqueIds; by rewrite Hids|].
  split.
  - by rewrite run_keeps_opportunities by apply updateLead_opportunities_free.
  - unfold updateLead. destruct (findLead state leadId); [|done].
    by destruct optimistic, (rejects roll (1 # 10)).
Qed.

Lemma update_keeps_ids_witness :
  map Lead.id (leads (run twins (updateLead twins "1" contacted true (5 # 100))))
  = ["1"; "1"].
Proof.
  exact (proj1 (update_keeps_ids twins "1" contacted true (5 # 100) eq_refl)).
Defined.

Section ConversionAlways.
Variable isoDate : Z -> string.

(** X4. Whatever the state, the id and the answers of the environment, a
    conversion run to its end leaves the loading flag false, has made at
    most two simulated calls, has kept every opportunity there was and
    added at most one, which refers to the id, and has changed neither
    the ids of the records nor the filters. *)
Theorem convert_always_settles (state : State) (leadId : string) (o : Oracle) :
  let events := convertLeadToOpportunity isoDate state leadId o in
  let final := run state events in
  isLoading final = false
  /\ (callsMade events <= 2)%nat
  /\ (exists added,
        opportunities final = opportunities state ++ added
        /\ (length added <= 1)%nat
        /\ Forall (fun opp => Opportunity.leadId opp = Some leadId) added)
  /\ map Lead.id (leads final) = map Lead.id (leads state)
  /\ filters final = filters state.
Proof.
  cbn zeta. unfold convertLeadToOpportunity.
  destruct (findLead state leadId) as [lead|] eqn:Hlead.
  2: { split; [done|]. split; [vm_compute; lia|]. cbn. split; [|done].
       exists []. rewrite app_nil_r. split; [done|]. split; [cbn; lia|constructor]. }
  destruct (findOpportunity state leadId) as [existing|].
  { split; [done|]. split; [vm_compute; lia|]. cbn. split; [|done].
    exists []. rewrite app_nil_r. split; [done|]. split; [cbn; lia|constructor]. }
  destruct (rejects (callRoll o) (5 # 100)).
  { split; [done|]. split; [vm_compute; lia|]. cbn. split; [|done].
    exists []. rewrite app_nil_r. split; [done|]. split; [cbn; lia|constructor]. }
  unfold addOpportunity, updateLead. rewrite Hlead.
  destruct (rejects (updateRoll o) (1 # 10)).
  - split; [done|]. split; [vm_compute; lia|]. cbn. split; [|done].
    eexists [_]. split; [done|]. split; [cbn; lia|]. by repeat constructor.
  - split; [done|]. split; [vm_compute; lia|]. cbn. split.
    + eexists [_]. split; [done|]. split; [cbn; lia|]. by repeat constructor.
    + split; [|done]. by apply ids_rewritten.
Qed.

(** X5. When the record exists, no opportunity refers to it and the
    first simulated call is rejected, the conversion shows the loading
    flag while the call is pending and ends with both collections and the
    selection as before, the error "Failed to convert lead" and the flag
    false; the status update is never started (one simulated call). *)
Theorem convert_call_fails (state : State) (leadId : string) (o : Oracle)
    (lead : Lead.t) :
  findLead state leadId = Some lead ->
  Forall (fun opp => Opportunity.leadId opp <> Some leadId) (opportunities state) ->
  rejects (callRoll o) (5 # 100) = true ->
  let events := convertLeadToOpportunity isoDate state leadId o in
  let final := run state events in
  isLoading (run state (beforeCall events)) = true
  /\ opportunities final = opportunities state
  /\ leads final = leads state
  /\ selectedLead final = selectedLead state
  /\ error final = Some "Failed to convert lead"
  /\ isLoading final = false
  /\ callsMade events = 1%nat.
Proof.
  intros Hlead Hnone Hrej. cbn zeta. unfold convertLeadToOpportunity.
  rewrite Hlead, (findOpportunity_None _ _ Hnone), Hrej. cbn. repeat split.
Qed.

(** X6. Once the first simulated call of a conversion has succeeded,
    whether or not the status update that follows fails, a second
    conversion of the same id, invoked on the state the first one left,
    is stopped by the duplicate check: it dispatches the error "Lead
    already converted into opportunity" and nothing else. *)
Theorem convert_twice (state : State) (leadId : string) (o o' : Oracle)
    (lead : Lead.t) :
  findLead state leadId = Some lead ->
  rejects (callRoll o) (5 # 100) = false ->
  let first := run state (convertLeadToOpportunity isoDate state leadId o) in
  convertLeadToOpportunity isoDate first leadId o'
  = [Dispatch (SET_ERROR (Some "Lead already converted into opportunity"))].
Proof.
  intros Hlead Hcall. cbn zeta.
  destruct (findOpportunity state leadId) as [existing|] eqn:Hopp.
  - (* the first conversion was stopped already *)
    assert (Hfirst : convertLeadToOpportunity isoDate state leadId o
                     = [Dispatch (SET_ERROR (Some "Lead already converted into opportunity"))]).
    { unfold convertLeadToOpportunity. by rewrite Hlead, Hopp. }
    rewrite Hfirst. unfold convertLeadToOpportunity at 1.
    unfold findLead, findOpportunity in *. cbn. by rewrite Hlead, Hopp.
  - assert (Hfound : is_Some (findLead
                (run state (convertLeadToOpportunity isoDate state leadId o)) leadId)
             /\ is_Some (findOpportunity
                (run state (convertLeadToOpportunity isoDate state leadId o)) leadId)).
    { unfold convertLeadToOpportunity, addOpportunity, updateLead.
      rewrite Hlead, Hopp, Hcall.
      destruct (rejects (updateRoll o) (1 # 10)); split.
      - unfold findLead in *. cbn. by rewrite Hlead.
      - eapply findOpportunity_is_Some;
          [cbn; apply elem_of_app; right; apply list_elem_of_here|reflexivity].
      - unfold findLead in *. cbn. rewrite find_rewritten by done.
        by rewrite Hlead.
      - eapply findOpportunity_is_Some;
          [cbn; apply elem_of_app; right; apply list_elem_of_here|reflexivity]. }
    destruct Hfound as [[l Hl] [opp Hopp']].
    unfold convertLeadToOpportunity at 1. by rewrite Hl, Hopp'.
Qed.
End ConversionAlways.

Lemma convert_call_fails_witness :
  error (run oneLead
           (convertLeadToOpportunity sampleDate oneLead "1"
              (mkOracle (1 # 100) 0 0 0 "" 0)))
  = Some "Failed to convert lead".
Proof.
  refine (proj1 (proj2 (proj2 (proj2 (proj2
    (convert_call_fails sampleDate oneLead "1" (mkOracle (1 # 100) 0 0 0 "" 0)
                        elizabeth _ _ _)))))).
  - reflexivity.
  - constructor.
  - reflexivity.
Defined.

Lemma convert_twice_witness :
  convertLeadToOpportunity sampleDate
    (run oneLead (convertLeadToOpportunity sampleDate oneLead "1" lateFailure))
    "1" calmOracle
  = [Dispatch (SET_ERROR (Some "Lead already converted into opportunity"))].
Proof.
  exact (convert_twice sampleDate oneLead "1" lateFailure calmOracle elizabeth
                       eq_refl eq_refl).
Defined.

(** ** The selection mirrors its record *)






Section Mirror.
Variable isoDate : Z -> string.

End Mirror.


(** ** Setting and loading filters *)

Section FilterExtras.
Variable JSON_parse : string -> option json.
Variable JSON_stringify : json -> string.


(** X9. When reading the storage throws, or the stored text is the empty
    string, the filters are the defaults, and [JSON.parse] has no say in
    it. *)
Theorem load_without_text (ls : Storage) :
  readable ls = false \/ items ls !! "seller_console_filters" = Some "" ->
  loadFiltersFromStorage JSON_parse ls = defaultFilters.
Proof.
  unfold loadFiltersFromStorage, getItem, STORAGE_KEYS.FILTERS.
  intros [->| ->]; [done|]. by destruct (readable ls).
Qed.

(** X10. A stored text that is not empty and that [JSON.parse] accepts
    becomes the filters of the initial state as it is: nothing checks
    that it is a criteria object, so a value without the four string
    properties gives a state whose filters have no criteria to read. *)
Theorem load_takes_any_json (ls : Storage) (saved : string) (value : json) :
  readable ls = true ->
  items ls !! "seller_console_filters" = Some saved ->
  saved <> "" ->
  JSON_parse saved = Some value ->
  filters (initialState JSON_parse ls) = value
  /\ (LeadsList.criteria value = None ->
      LeadsList.criteria (filters (initialState JSON_parse ls)) = None).
Proof.
  intros Hr Hs Hne Hp.
  assert (H : filters (initialState JSON_parse ls) = value).
  { cbn. unfold loadFiltersFromStorage, getItem, truthy.
    rewrite Hr. cbn. unfold STORAGE_KEYS.FILTERS. rewrite Hs.
    rewrite bool_decide_eq_false_2 by done. cbn. by rewrite Hp. }
  split; [done|]. by rewrite H.
Qed.

Lemma criteria_criteriaObject (f : LeadsList.Filters) :
  LeadsList.criteria (criteriaObject f) = Some f.
Proof. by destruct f. Qed.

Lemma criteria_inv (j : json) (f : LeadsList.Filters) :
  LeadsList.criteria j = Some f ->
  exists props, j = JObj props
    /\ props !! "search" = Some (JStr (LeadsList.search f))
    /\ props !! "status" = Some (JStr (LeadsList.status f))
    /\ props !! "sortBy" = Some (JStr (LeadsList.sortBy f))
    /\ props !! "sortOrder" = Some (JStr (LeadsList.sortOrder f)).
Proof.
  destruct j as [| | | | |props]; try done. cbn. intros H. exists props.
  destruct (props !! "search") as [[]|]; try done.
  destruct (props !! "status") as [[]|]; try done.
  destruct (props !! "sortBy") as [[]|]; try done.
  destruct (props !! "sortOrder") as [[]|]; try done.
  by injection H as <-.
Qed.

(** X11. Each control of [LeadFilters] changes the criterion it stands
    for and no other: from filters that read as the criteria [f], the
    state after the [onChange] of the search box, of the status list, of
    the sort key list or of the sort order list reads as [f] with that
    one criterion replaced by the value chosen. *)
Theorem control_changes_one_criterion (state : State) (ls : Storage)
    (f : LeadsList.Filters) (value : string) :
  LeadsList.criteria (filters state) = Some f ->
  let after := fun key =>
    LeadsList.criteria
      (filters (run state (snd (onCriterionChange JSON_stringify state ls key value)))) in
  after "search"
  = Some (LeadsList.mkFilters value (LeadsList.status f)
                              (LeadsList.sortBy f) (LeadsList.sortOrder f))
  /\ after "status"
     = Some (LeadsList.mkFilters (LeadsList.search f) value
                                 (LeadsList.sortBy f) (LeadsList.sortOrder f))
  /\ after "sortBy"
     = Some (LeadsList.mkFilters (LeadsList.search f) (LeadsList.status f)
                                 value (LeadsList.sortOrder f))
  /\ after "sortOrder"
     = Some (LeadsList.mkFilters (LeadsList.search f) (LeadsList.status f)
                                 (LeadsList.sortBy f) value).
Proof.
  intros Hf. apply criteria_inv in Hf as (props & Hj & H1 & H2 & H3 & H4).
  cbn zeta. unfold onCriterionChange, setFilters, withCriterion. cbn [snd].
  cbn. rewrite Hj. cbn [ownProps LeadsList.criteria].
  repeat split;
    rewrite !lookup_union, !lookup_insert; cbn;
    repeat (case_decide; try done); cbn;
    by rewrite ?H1, ?H2, ?H3, ?H4.
Qed.

(** X12. "Clean filters" empties the search and sets the status to
    "all", and keeps the sort key and the sort order, whatever the search
    and the status were, and even when they were missing. *)
Theorem clean_keeps_the_order (state : State) (ls : Storage)
    (props : gmap string json) (key order : string) :
  filters state = JObj props ->
  props !! "sortBy" = Some (JStr key) ->
  props !! "sortOrder" = Some (JStr order) ->
  LeadsList.criteria
    (filters (run state (snd (onCleanFilters JSON_stringify state ls))))
  = Some (LeadsList.mkFilters "" "all" key order).
Proof.
  intros Hj Hk Ho. unfold onCleanFilters, setFilters, cleanedCriteria.
  cbn. rewrite Hj. cbn [ownProps LeadsList.criteria].
  rewrite !lookup_union. rewrite Hk, Ho.
  destruct (props !! "search"), (props !! "status"); by vm_compute.
Qed.
End FilterExtras.


Lemma load_without_text_witness :
  loadFiltersFromStorage sampleParse (mkStorage ∅ false true) = defaultFilters.
Proof.
  apply load_without_text. left. reflexivity.
Defined.

Lemma load_takes_any_json_witness :
  filters (initialState sampleParse
             (mkStorage {[ "seller_console_filters" := "null" ]} true true))
  = JNull.
Proof.
  refine (proj1 (load_takes_any_json sampleParse _ "null" JNull _ _ _ _)).
  - reflexivity.
  - reflexivity.
  - discriminate.
  - reflexivity.
Defined.

Lemma control_changes_one_criterion_witness :
  LeadsList.criteria
    (filters (run searching
                (snd (onCriterionChange sampleStringify searching emptyStorage
                                        "search" "bennet"))))
  = Some (LeadsList.mkFilters "bennet" "contacted" "name" "asc").
Proof.
  exact (proj1 (control_changes_one_criterion sampleStringify searching emptyStorage
                  (LeadsList.mkFilters "darcy" "contacted" "name" "asc")
                  "bennet" eq_refl)).
Defined.

Lemma clean_keeps_the_order_witness :
  LeadsList.criteria
    (filters (run searching (snd (onCleanFilters sampleStringify searching emptyStorage))))
  = Some (LeadsList.mkFilters "" "all" "name" "asc").
Proof.
  refine (clean_keeps_the_order sampleStringify searching emptyStorage _
            "name" "asc" eq_refl _ _); reflexivity.
Defined.

(** ** More on the derived view *)

Section SortMore.
Import LeadsList.
Context {A : Type}.

Lemma sorted_ext (f g : A -> A -> Z) (l : list A) :
  (forall x y, f x y = g x y) -> sorted f l = sorted g l.
Proof.
  intros Hfg. induction l as [|x l IH]; [done|]. cbn. fold (sorted f l).
  fold (sorted g l). rewrite IH. generalize (sorted g l). intros l'.
  induction l' as [|y l' IH']; [done|]. cbn. by rewrite Hfg, IH'.
Qed.

(** Sorting what is sorted changes nothing. *)
Lemma sorted_of_sorted (compareFn : A -> A -> Z) (l : list A) :
  StronglySorted (fun a b => compareFn a b <= 0) l -> sorted compareFn l = l.
Proof.
  induction 1 as [|x l Hl IH Hx]; [done|]. cbn. fold (sorted compareFn l).
  rewrite IH. destruct Hx as [|y l' Hy _]; [done|]. cbn.
  by rewrite (proj2 (Z.leb_le _ _) Hy).
Qed.

(** A comparator that tells nothing apart leaves the order alone. *)
Lemma sorted_indifferent (compareFn : A -> A -> Z) (l : list A) :
  (forall x y, compareFn x y = 0) -> sorted compareFn l = l.
Proof.
  intros H0. induction l as [|x l IH]; [done|]. cbn. fold (sorted compareFn l).
  rewrite IH. destruct l as [|y l]; [done|]. cbn. by rewrite H0.
Qed.
End SortMore.

Lemma filter_Forall_id {A} (p : A -> bool) (l : list A) :
  Forall (fun x => p x = true) l -> List.filter p l = l.
Proof. induction 1 as [|x l Hx _ IH]; cbn; [done|]. by rewrite Hx, IH. Qed.

Section ViewMore.
Import LeadsList.
Variable toLowerCase : string -> string.
Variable localeCompare : string -> string -> Z.
Variable stringToNumber : string -> option Z.

(** What the view holds, in full: the selected elements of [leads],
    sorted. *)
Lemma filteredLeads_output (h : Heap) (leads : ref) (input : list ref)
    (filters : Filters) :
  arrays h !! leads = Some input ->
  let result := filteredLeads toLowerCase localeCompare stringToNumber
                              leads filters h in
  arrays (snd result) !! fst result
  = Some (sorted (fun x y => compareFn localeCompare stringToNumber filters
                                       (objects h x) (objects h y))
                 (List.filter (fun r => selects toLowerCase filters (objects h r))
                              input))
  /\ objects (snd result) = objects h.
Proof.
  intros Hleads. cbv zeta. unfold filteredLeads, mbind, M_bind.
  assert (Ecopy : copyArray leads h = alloc input h).
  { unfold copyArray, elementsOf. by rewrite Hleads. }
  rewrite Ecopy.
  destruct (alloc_spec h h input) as (Hp1 & Ha1 & Hl1); [done|].
  destruct (alloc input h) as [a1 h1]. cbn [fst snd] in Hp1, Ha1, Hl1.
  match goal with
  | |- context [ (if ?c then filterArray ?cb a1 else mret a1) h1 ] =>
      destruct (stage_spec c cb h h1 a1 input Hp1 Ha1 Hl1) as (Hp2 & Ha2 & Hl2);
      destruct ((if c then filterArray cb a1 else mret a1) h1) as [a2 h2]
  end.
  cbn [fst snd] in Hp2, Ha2, Hl2.
  match goal with
  | |- context [ (if ?c then filterArray ?cb a2 else mret a2) h2 ] =>
      destruct (stage_spec c cb h h2 a2 _ Hp2 Ha2 Hl2) as (Hp3 & Ha3 & Hl3);
      destruct ((if c then filterArray cb a2 else mret a2) h2) as [a3 h3]
  end.
  cbn [fst snd] in Hp3, Ha3, Hl3.
  rewrite filter_filter in Hl3.
  rewrite (List.filter_ext _ _
             (fun r => selects_stages toLowerCase filters (objects h r))) in Hl3.
  unfold sortArray, elementsOf, mret, M_ret. cbn [fst snd arrays objects].
  rewrite Hl3. cbn [default from_option id]. destruct Hp3 as [Hobj _].
  rewrite Hobj. split; [apply lookup_insert_eq|done].
Qed.

(** X13. With an empty search string and the status "all" the view holds
    every element of [leads], each as often as [leads] does. *)
Theorem no_filter_shows_all (h : Heap) (leads : ref) (input : list ref)
    (filters : Filters) :
  arrays h !! leads = Some input ->
  search filters = "" -> status filters = "all" ->
  let result := filteredLeads toLowerCase localeCompare stringToNumber
                              leads filters h in
  exists output,
    arrays (snd result) !! fst result = Some output /\ output ≡ₚ input.
Proof.
  intros Hleads Hs Hst. cbn zeta.
  destruct (filteredLeads_output h leads input filters Hleads) as [Hout _].
  eexists. split; [exact Hout|]. rewrite sorted_Permutation.
  rewrite filter_Forall_id; [done|]. apply Forall_forall. intros r _.
  unfold selects. by rewrite Hs, Hst.
Qed.

(** X14. Sorting by a key the leads do not have compares nothing: the
    view holds the selected elements in the order [leads] has them,
    whatever the direction. *)
Theorem unknown_key_keeps_order (h : Heap) (leads : ref) (input : list ref)
    (filters : Filters) :
  arrays h !! leads = Some input ->
  sortBy filters ∉ leadKeys ->
  let result := filteredLeads toLowerCase localeCompare stringToNumber
                              leads filters h in
  arrays (snd result) !! fst result
  = Some (List.filter (fun r => selects toLowerCase filters (objects h r)) input).
Proof.
  intros Hleads Hkey. cbn zeta.
  destruct (filteredLeads_output h leads input filters Hleads) as [Hout _].
  rewrite Hout. f_equal. apply sorted_indifferent. intros x y.
  assert (Hu : forall l, field l (sortBy filters) = VUndefined).
  { intros l. unfold field, leadKeys in *.
    repeat (case_bool_decide; [exfalso; apply Hkey; set_solver|]). done. }
  unfold compareFn. rewrite !Hu. cbn. by destruct (bool_decide _).
Qed.

(** X15. Only "desc" sorts downwards: with any other sort order the view
    is the one of "asc". *)
Theorem other_orders_ascend (h : Heap) (leads : ref) (input : list ref)
    (filters : Filters) :
  arrays h !! leads = Some input ->
  sortOrder filters <> "desc" ->
  let ascending := mkFilters (search filters) (status filters) (sortBy filters) "asc" in
  let result := filteredLeads toLowerCase localeCompare stringToNumber
                              leads filters h in
  let result' := filteredLeads toLowerCase localeCompare stringToNumber
                               leads ascending h in
  arrays (snd result) !! fst result = arrays (snd result') !! fst result'.
Proof.
  intros Hleads Hne. cbn zeta.
  destruct (filteredLeads_output h leads input filters Hleads) as [-> _].
  destruct (filteredLeads_output h leads input
              (mkFilters (search filters) (status filters) (sortBy filters) "asc")
              Hleads) as [-> _].
  f_equal. apply sorted_ext. intros x y. unfold compareFn. cbn.
  by rewrite bool_decide_eq_false_2.
Qed.

Hypothesis localeCompare_consistent : consistent localeCompare.

(** X16. The view of a view is that view: deriving again, with the same
    criteria, from the array a first derivation returned gives the same
    elements in the same order. *)
Theorem view_is_idempotent (h : Heap) (leads : ref) (input : list ref)
    (filters : Filters) :
  arrays h !! leads = Some input ->
  let first := filteredLeads toLowerCase localeCompare stringToNumber
                             leads filters h in
  let second := filteredLeads toLowerCase localeCompare stringToNumber
                              (fst first) filters (snd first) in
  arrays (snd second) !! fst second = arrays (snd first) !! fst first.
Proof.
  intros Hleads. cbn zeta.
  destruct (filteredLeads_output h leads input filters Hleads) as [Hout Hobj].
  destruct (filteredLeads_output _ _ _ filters Hout) as [-> _].
  rewrite Hout, Hobj. f_equal.
  pose proof (Consistent_on (objects h) _
                (compareFn_Consistent localeCompare stringToNumber
                   localeCompare_consistent filters)) as Hc.
  rewrite filter_Forall_id.
  - apply sorted_of_sorted. by apply sorted_StronglySorted.
  - apply Forall_forall. intros r Hr.
    rewrite sorted_Permutation in Hr.
    apply list_elem_of_In, filter_In in Hr as [_ Hr]. exact Hr.
Qed.
End ViewMore.

Lemma no_filter_shows_all_witness :
  let result := LeadsList.filteredLeads asciiLowerCase codeUnitCompare noNumber
                                        10%positive byNameDescending sampleHeap in
  exists output,
    LeadsList.arrays (snd result) !! fst result = Some output
    /\ output ≡ₚ [1%positive; 2%positive].
Proof.
  exact (no_filter_shows_all asciiLowerCase codeUnitCompare noNumber sampleHeap
           10%positive [1%positive; 2%positive] byNameDescending
           eq_refl eq_refl eq_refl).
Defined.

Lemma unknown_key_keeps_order_witness :
  let result := LeadsList.filteredLeads asciiLowerCase codeUnitCompare noNumber
                                        10%positive byShoeSize sampleHeap in
  LeadsList.arrays (snd result) !! fst result = Some [1%positive; 2%positive].
Proof.
  refine (unknown_key_keeps_order asciiLowerCase codeUnitCompare noNumber sampleHeap
            10%positive [1%positive; 2%positive] byShoeSize eq_refl _).
  by apply (bool_decide_unpack _).
Defined.

Lemma other_orders_ascend_witness :
  let result := LeadsList.filteredLeads asciiLowerCase codeUnitCompare noNumber
                                        10%positive sideways sampleHeap in
  let result' := LeadsList.filteredLeads asciiLowerCase codeUnitCompare noNumber
                   10%positive (LeadsList.mkFilters "" "all" "name" "asc")
                   sampleHeap in
  LeadsList.arrays (snd result) !! fst result
  = LeadsList.arrays (snd result') !! fst result'.
Proof.
  refine (other_orders_ascend asciiLowerCase codeUnitCompare noNumber sampleHeap
            10%positive [1%positive; 2%positive] sideways eq_refl _).
  discriminate.
Defined.

Lemma view_is_idempotent_witness :
  let first := LeadsList.filteredLeads asciiLowerCase codeUnitCompare noNumber
                                       10%positive prideByScore sampleHeap in
  let second := LeadsList.filteredLeads asciiLowerCase codeUnitCompare noNumber
                                        (fst first) prideByScore (snd first) in
  LeadsList.arrays (snd second) !! fst second
  = LeadsList.arrays (snd first) !! fst first.
Proof.
  exact (view_is_idempotent asciiLowerCase codeUnitCompare noNumber
           codeUnitCompare_consistent sampleHeap 10%positive
           [1%positive; 2%positive] prideByScore eq_refl).
Defined.

(** ** The auto-clear timer, in every reachable world *)

Section TimerInvariant.
Import ErrorTimer.

Lemma errorSet_error (s1 s2 : State) :
  error s1 = error s2 -> errorSet s1 = errorSet s2.
Proof. unfold errorSet. by intros ->. Qed.

Lemma render_invariant (w : World) (actions : list Action) :
  timerInvariant w -> timerInvariant (render w actions).
Proof.
  unfold timerInvariant, render. intros Hw.
  destruct (decide _) as [Heq|_]; cbn.
  - rewrite (errorSet_error _ _ Heq). exact Hw.
  - unfold effect. clear Hw.
    destruct (errorSet (fold_left appReducer actions (store w))) eqn:E;
      [split; [done|lia] | done].
Qed.

Lemma advance_invariant (w : World) (ms : Z) :
  0 <= ms -> timerInvariant w -> timerInvariant (advance ms w).
Proof.
  unfold timerInvariant, advance. intros Hms Hw.
  destruct (timer w) as [deadline|]; [|done].
  destruct (deadline <=? clock w + ms) eqn:E; cbn.
  - unfold dispatch, render. cbn. destruct (decide _) as [Heq|_]; cbn; [|done].
    unfold errorSet. cbn. done.
  - apply Z.leb_gt in E. destruct Hw as [He Hd]. split; [done|lia].
Qed.

Lemma reachable_invariant (w : World) : reachable w -> timerInvariant w.
Proof.
  induction 1 as [state now|w actions _ IH|w ms _ IH Hms].
  - unfold timerInvariant, mount, effect. cbn.
    destruct (errorSet state) eqn:E; cbn; [|done]. split; [done|lia].
  - by apply render_invariant.
  - by apply advance_invariant.
Qed.

(** X17. In every world the provider can reach, a timer is pending
    exactly while an error message shows; so a message that shows is gone
    after 5000 ms without a dispatch, however and whenever it was set,
    and while none shows the lapse of time changes nothing in the
    state. *)
Theorem errors_never_linger (w : World) :
  reachable w ->
  (is_Some (timer w) <-> errorSet (store w) = true)
  /\ (errorSet (store w) = true -> error (store (advance 5000 w)) = None)
  /\ (errorSet (store w) = false ->
      forall ms, store (advance ms w) = store w).
Proof.
  intros Hr. pose proof (reachable_invariant w Hr) as Hinv.
  unfold timerInvariant in Hinv. split; [|split].
  - destruct (timer w) as [d|].
    + destruct Hinv as [-> _]. split; [done|by eexists].
    + rewrite Hinv. split; [by intros [? ?]|done].
  - intros He. destruct (timer w) as [d|] eqn:Et; [|congruence].
    apply (advance_fires w d); [done|lia].
  - intros He ms. destruct (timer w) as [d|] eqn:Et.
    + destruct Hinv as [Hinv _]. congruence.
    + unfold advance. by rewrite Et.
Qed.
End TimerInvariant.

Lemma errors_never_linger_witness :
  error (ErrorTimer.store
           (ErrorTimer.advance 5000
              (ErrorTimer.dispatch
                 (ErrorTimer.advance 3000
                    (ErrorTimer.dispatch (ErrorTimer.mount freshState 0)
                                         (SET_ERROR (Some "Lead not found"))))
                 (SET_ERROR (Some "Lead not found")))))
  = None.
Proof.
  refine (proj1 (proj2 (errors_never_linger _ _)) _).
  - apply reach_render. apply reach_advance; [|lia].
    apply reach_render. apply reach_mount.
  - reflexivity.
Defined.

(** ** Loading on mount *)

(** X18. The two loads of the provider settle in either order with the
    same result. The loading flag, raised before the leads are asked for,
    is false once they have settled; the leads are the ones loaded, or
    none with the error "Failed to load leads"; a failed load of the
    opportunities leaves no trace, neither an error nor a change of the
    collection. *)
Theorem loads_settle (state : State) (leadsResponse : option (list Lead.t))
    (oppsResponse : option (list Opportunity.t)) :
  let raised := run state (firstn 1 (loadLeads leadsResponse)) in
  let leadsFirst := run raised (skipn 1 (loadLeads leadsResponse)
                                ++ loadOpportunities oppsResponse) in
  let oppsFirst := run raised (loadOpportunities oppsResponse
                               ++ skipn 1 (loadLeads leadsResponse)) in
  isLoading raised = true
  /\ leadsFirst = oppsFirst
  /\ isLoading leadsFirst = false
  /\ leads leadsFirst = default (leads state) leadsResponse
  /\ opportunities leadsFirst = default (opportunities state) oppsResponse
  /\ error leadsFirst
     = match leadsResponse with
       | Some _ => error state
       | None => Some "Failed to load leads"
       end.
Proof.
  destruct leadsResponse, oppsResponse; cbn; repeat split.
Qed.

(** ** Saving a card *)

Lemma startThenGoOn_run (state : State) (creator : list Event)
    (message : string) :
  run state (startThenGoOn creator [Dispatch (SET_LIVE_MESSAGE message)]
                           [Later 1000 (SET_LIVE_MESSAGE "")])
  = appReducer (run state creator) (SET_LIVE_MESSAGE "").
Proof.
  unfold startThenGoOn.
  assert (Hsplit : creator
                   = beforeCall creator ++ skipn (length (beforeCall creator)) creator).
  { induction creator as [|e es IH]; [done|]. cbn.
    destruct (isCall e); [done|]. cbn. by rewrite <-IH. }
  assert (Hstep : forall s1 s2 e,
             appReducer s1 (SET_LIVE_MESSAGE "") = appReducer s2 (SET_LIVE_MESSAGE "") ->
             appReducer (step s1 e) (SET_LIVE_MESSAGE "")
             = appReducer (step s2 e) (SET_LIVE_MESSAGE "")).
  { intros [] [] e [= -> -> -> -> -> ->].
    destruct e as [a| |? a]; [|done|]; by destruct a. }
  assert (Hlive : forall es s1 s2,
             appReducer s1 (SET_LIVE_MESSAGE "") = appReducer s2 (SET_LIVE_MESSAGE "") ->
             appReducer (run s1 es) (SET_LIVE_MESSAGE "")
             = appReducer (run s2 es) (SET_LIVE_MESSAGE "")).
  { induction es as [|e es IH]; intros s1 s2 H; [done|].
    rewrite !run_cons. apply IH. by apply Hstep. }
  set (pre := beforeCall creator) in *.
  set (post := skipn (length pre) creator) in *.
  rewrite Hsplit, !run_app.
  change (run ?s [Later 1000 (SET_LIVE_MESSAGE "")])
    with (appReducer s (SET_LIVE_MESSAGE "")).
  apply Hlive. done.
Qed.

Section CardProperties.
Variable validateEmail : string -> bool.

(** X19. Saving a card with an address [validateEmail] rejects stops
    before the store: nothing is dispatched. With an address it accepts,
    for a record of the collection, the outcome is the one of the
    optimistic update, the announcement apart: when the simulated call
    succeeds the record has the e-mail address and the status of the
    form and every other field as before; when it is rejected and ids
    are unique the collection is as before and the error is "Lead
    upgrade failed". Either way no id changes. *)
Theorem card_save (state : State) (lead : Lead.t)
    (editData : LeadCard.EditData) (roll : Q) :
  let saved := LeadCard.handleSave validateEmail state lead editData roll in
  let final := run state (snd saved) in
  (validateEmail (LeadCard.email editData) = false ->
   saved = (Some "Invalid email", []))
  /\ (validateEmail (LeadCard.email editData) = true ->
      findLead state (Lead.id lead) = Some lead ->
      fst saved = None
      /\ map Lead.id (leads final) = map Lead.id (leads state)
      /\ (rejects roll (1 # 10) = false ->
          findLead final (Lead.id lead)
          = Some (Lead.mk (Lead.id lead) (Lead.name lead) (Lead.company lead)
                          (LeadCard.email editData) (Lead.source lead)
                          (Lead.score lead) (LeadCard.status editData))
          /\ error final = error state)
      /\ (rejects roll (1 # 10) = true -> uniqueIds (leads state) ->
          leads final = leads state
          /\ error final = Some "Lead upgrade failed")).
Proof.
  cbn zeta. unfold LeadCard.handleSave. split.
  - by intros ->.
  - intros -> Hfind. cbn [negb fst snd]. rewrite startThenGoOn_run. cbn [leads error appReducer].
    set (u := LeadCard.asUpdates editData).
    assert (Hk : keepsId (Lead.id lead) u) by done.
    split; [done|]. split; [|split].
    + unfold updateLead. rewrite Hfind.
      assert (Hid : forall l, Lead.id l = Lead.id lead ->
                              Lead.id (Lead.spread l u) = Lead.id lead)
        by (intros l; by apply spread_keeps_id).
      destruct (rejects roll (1 # 10)); cbn; rewrite ?ids_rewritten; done.
    + intros Hok. unfold updateLead. rewrite Hfind, Hok. cbn.
      unfold findLead in *. cbn. rewrite find_rewritten by done.
      by rewrite Hfind.
    + intros Hrej Hu. unfold updateLead. rewrite Hfind, Hrej. cbn.
      rewrite rollback_after_update by done. split; [|done].
      unfold findLead in Hfind. by apply rollback_unique.
Qed.
End CardProperties.

Lemma card_save_witness :
  findLead (run elizabethSelected
              (snd (LeadCard.handleSave hasAtSign elizabethSelected elizabeth
                                        newAddress (9 # 10)))) "1"
  = Some (Lead.mk "1" "Elizabeth Bennet" "Pride and Prejudice Ltd"
                  "lizzy@pemberley.example" "Website" 95 "contacted").
Proof.
  pose proof (card_save hasAtSign elizabethSelected elizabeth newAddress (9 # 10))
    as [_ H].
  destruct (H eq_refl eq_refl) as (_ & _ & Hok & _).
  exact (proj1 (Hok eq_refl)).
Defined.

(** ** The convert button of the panel *)

Lemma isAlreadyConverted_find (state : State) (lead : Lead.t) :
  LeadDetailPanel.isAlreadyConverted state lead = true
  <-> is_Some (findOpportunity state (Lead.id lead)).
Proof.
  unfold LeadDetailPanel.isAlreadyConverted, findOpportunity.
  induction (opportunities state) as [|o os IH]; cbn.
  - split; [done|by intros [? ?]].
  - destruct (bool_decide (Opportunity.leadId o = Some (Lead.id lead)));
      cbn; [|done]. split; [by eexists|done].
Qed.

Section PanelProperties.
Variable isoDate : Z -> string.

(** X20. The convert button is enabled only when the conversion would
    pass the duplicate check. Clicked while enabled for a record of the
    collection, it clears the error that showed, raises the loading flag
    and makes the simulated call; and once that call has succeeded the
    button is disabled for that record from then on, the loading flag is
    down again, and the error is null unless the status update failed. *)
Theorem enabled_convert (state : State) (lead : Lead.t) (o : Oracle) :
  LeadDetailPanel.convertDisabled state lead = false ->
  findLead state (Lead.id lead) = Some lead ->
  let conversion := convertLeadToOpportunity isoDate state (Lead.id lead) o in
  let events := LeadDetailPanel.handleConvert isoDate state lead o in
  let pending := run state (beforeCall events) in
  let final := run state events in
  findOpportunity state (Lead.id lead) = None
  /\ error pending = None /\ isLoading pending = true
  /\ (1 <= callsMade events)%nat
  /\ (rejects (callRoll o) (5 # 100) = false ->
      LeadDetailPanel.convertDisabled final lead = true
      /\ isLoading final = false
      /\ (rejects (updateRoll o) (1 # 10) = false -> error final = None)).
Proof.
  intros Hen Hfind. cbn zeta.
  apply orb_false_elim in Hen as [Hconv Hload].
  assert (Hnone : findOpportunity state (Lead.id lead) = None).
  { destruct (findOpportunity state (Lead.id lead)) eqn:E; [|done].
    assert (is_Some (findOpportunity state (Lead.id lead))) as Hs by (by eexists).
    apply isAlreadyConverted_find in Hs. congruence. }
  split; [done|].
  unfold LeadDetailPanel.handleConvert, convertLeadToOpportunity,
    addOpportunity, updateLead, clearError.
  rewrite Hfind, Hnone.
  destruct (rejects (callRoll o) (5 # 100));
    [by repeat split; try (vm_compute; lia)|].
  destruct (rejects (updateRoll o) (1 # 10)); cbn [app beforeCall isCall length skipn].
  - split; [done|]. split; [done|]. split; [vm_compute; lia|]. intros _.
    split; [|by split].
    unfold LeadDetailPanel.convertDisabled. apply orb_true_intro. left.
    apply isAlreadyConverted_find.
    eapply findOpportunity_is_Some;
      [cbn; apply elem_of_app; right; apply list_elem_of_here|reflexivity].
  - split; [done|]. split; [done|]. split; [vm_compute; lia|]. intros _.
    split; [|by split].
    unfold LeadDetailPanel.convertDisabled. apply orb_true_intro. left.
    apply isAlreadyConverted_find.
    eapply findOpportunity_is_Some;
      [cbn; apply elem_of_app; right; apply list_elem_of_here|reflexivity].
Qed.
End PanelProperties.

Lemma enabled_convert_witness :
  LeadDetailPanel.convertDisabled
    (run failed (LeadDetailPanel.handleConvert sampleDate failed elizabeth calmOracle))
    elizabeth = true
  /\ error (run failed
              (LeadDetailPanel.handleConvert sampleDate failed elizabeth calmOracle))
     = None.
Proof.
  pose proof (enabled_convert sampleDate failed elizabeth calmOracle
                eq_refl eq_refl) as (_ & _ & _ & _ & H).
  destruct (H eq_refl) as (Hd & _ & He).
  split; [exact Hd | exact (He eq_refl)].
Defined.

(** ** Clicking a card *)

Lemma find_member (lead : Lead.t) (ls : list Lead.t) :
  NoDup (map Lead.id ls) -> lead ∈ ls ->
  find (fun l => bool_decide (Lead.id l = Lead.id lead)) ls = Some lead.
Proof.
  induction ls as [|l ls IH]; cbn; intros Hnd Hin; [by apply elem_of_nil in Hin|].
  apply NoDup_cons in Hnd as [Hfresh Hnd].
  apply elem_of_cons in Hin as [->|Hin].
  - by rewrite bool_decide_eq_true_2.
  - rewrite bool_decide_eq_false_2; [by apply IH|].
    intros Heq. apply Hfresh. rewrite Heq. by apply list_elem_of_fmap_2.
Qed.

(** X21. With unique ids, clicking the card of a record of the
    collection while it is not being edited selects that very record, so
    the selection mirrors the collection; while the card is being edited
    the click dispatches nothing. *)
Theorem card_click_selects (state : State) (lead : Lead.t) :
  uniqueIds (leads state) -> lead ∈ leads state ->
  selectedLead (run state (LeadCard.handleCardClick false lead)) = Some lead
  /\ mirrors (run state (LeadCard.handleCardClick false lead))
  /\ LeadCard.handleCardClick true lead = [].
Proof.
  intros Hu Hin. split; [done|]. split; [|done].
  intros sel [= <-]. unfold findLead. cbn. by apply find_member.
Qed.

Lemma card_click_selects_witness :
  mirrors (run draftSelected (LeadCard.handleCardClick false darcy)).
Proof.
  refine (proj1 (proj2 (card_click_selects draftSelected darcy _ _))).
  - unfold uniqueIds. by apply (bool_decide_unpack _).
  - by apply (bool_decide_unpack _).
Defined.
